(** * TodoListCopilot: the validation and state-transition core

    A shallow embedding of the React component [TodoListCopilot]
    (the version with validation messages, editing and the active /
    completed sections).  The component state held by the [useState] hooks
    becomes the record [State]; every event handler becomes a function
    [State -> State]; the JavaScript built-ins the handlers call
    ([String.prototype.trim], [RegExp.prototype.test], [Array.prototype.map]
    with an index callback, ...) are modelled in the module [JS]. *)

From Stdlib Require Import String Ascii.
From stdpp Require Import base numbers option list.

Open Scope Z_scope.

(** ** JavaScript built-ins *)

Module JS.

(** A JavaScript string is a sequence of UTF-16 code units; a code unit is
    kept as a number [N]. *)
Abbreviation jsstring := (list N).

(** Reading an ASCII literal as a JavaScript string. *)
Definition js (s : string) : jsstring :=
  N_of_ascii <$> list_ascii_of_string s.

(** ECMAScript [WhiteSpace] and [LineTerminator] code points: what
    [trim] strips and what the class escape [\s] matches. *)
Definition isWhiteSpace (c : N) : bool :=
  ((9 <=? c) && (c <=? 13) || (c =? 32) || (c =? 160) || (c =? 5760)
   || (8192 <=? c) && (c <=? 8202) || (c =? 8232) || (c =? 8233)
   || (c =? 8239) || (c =? 8287) || (c =? 12288) || (c =? 65279))%N.

Fixpoint trimStart (s : jsstring) : jsstring :=
  match s with
  | [] => []
  | c :: r => if isWhiteSpace c then trimStart r else s
  end.

Definition trimEnd (s : jsstring) : jsstring := rev (trimStart (rev s)).

(** [s.trim()] *)
Definition trim (s : jsstring) : jsstring := trimEnd (trimStart s).

Definition isAsciiUpper (c : N) : bool := ((65 <=? c) && (c <=? 90))%N.
Definition isAsciiLower (c : N) : bool := ((97 <=? c) && (c <=? 122))%N.
Definition isAsciiDigit (c : N) : bool := ((48 <=? c) && (c <=? 57))%N.

(** The ranges [a-zA-Z0-9] of the source's character class. *)
Definition isAsciiAlnum (c : N) : bool :=
  isAsciiLower c || isAsciiUpper c || isAsciiDigit c.

(** The negated class [[^a-zA-Z0-9\s]] of the source. *)
Definition notAlnumSpace (c : N) : bool :=
  negb (isAsciiAlnum c || isWhiteSpace c).

(** [/[cls]/.test(s)]: some code unit of [s] is in the class. *)
Definition regex_test (cls : N → bool) (s : jsstring) : bool :=
  existsb cls s.

(** [s.replace(/[cls]/g, '')]: every code unit in the class is dropped. *)
Definition regex_remove_all (cls : N → bool) (s : jsstring) : jsstring :=
  List.filter (λ c, negb (cls c)) s.

(** Case conversion of one code unit.  The handlers apply [toUpperCase]
    and [toLowerCase] only to text that passed the test against
    [[^a-zA-Z0-9\s]] and to stored item text; on letters, digits and white
    space the ECMAScript mappings are the ASCII ones below.  Other code
    units are left as they are by this model. *)
Definition toLowerUnit (c : N) : N := if isAsciiUpper c then (c + 32)%N else c.
Definition toUpperUnit (c : N) : N := if isAsciiLower c then (c - 32)%N else c.

Definition toLowerCase (s : jsstring) : jsstring := toLowerUnit <$> s.
Definition toUpperCase (s : jsstring) : jsstring := toUpperUnit <$> s.

(** [s.charAt(n)]: the one-unit string at [n], or the empty string. *)
Definition charAt (n : nat) (s : jsstring) : jsstring :=
  match s !! n with
  | Some c => [c]
  | None => []
  end.

(** [s.slice(n)] for a non-negative [n]. *)
Definition slice (n : nat) (s : jsstring) : jsstring := drop n s.

(** Array methods whose callback also receives the element's index. *)
Section ArrayMethods.
Context {A : Type}.

Fixpoint some_from (p : A → Z → bool) (i : Z) (l : list A) : bool :=
  match l with
  | [] => false
  | x :: r => p x i || some_from p (i + 1) r
  end.

Fixpoint filter_from (p : A → Z → bool) (i : Z) (l : list A) : list A :=
  match l with
  | [] => []
  | x :: r =>
      if p x i then x :: filter_from p (i + 1) r
      else filter_from p (i + 1) r
  end.

Fixpoint map_from {B : Type} (f : A → Z → B) (i : Z) (l : list A) : list B :=
  match l with
  | [] => []
  | x :: r => f x i :: map_from f (i + 1) r
  end.

(** [l.some(p)], [l.filter(p)], [l.map(f)] *)
Definition Array_some (p : A → Z → bool) (l : list A) : bool :=
  some_from p 0 l.
Definition Array_filter (p : A → Z → bool) (l : list A) : list A :=
  filter_from p 0 l.
Definition Array_map {B : Type} (f : A → Z → B) (l : list A) : list B :=
  map_from f 0 l.
End ArrayMethods.

End JS.

Import JS.

(** ** Component state *)

(** A todo item, [{ text, completed }]. *)
Record Todo := mkTodo {
  text : jsstring;
  completed : bool
}.

(** The five [useState] cells of the component. *)
Record State := mkState {
  todos : list Todo;
  input : jsstring;
  validationMessage : string;
  editingIndex : Z;
  editInput : jsstring
}.

(** The validation messages of the source; [msgNone] is the empty message. *)
Definition msgNone : string := EmptyString.
Definition msgEmpty : string := "Please enter a todo item".
Definition msgInvalid : string := "Only letters, numbers, and spaces are allowed".
Definition msgDuplicate : string := "This todo item already exists".

Definition initial : State :=
  {| todos := []; input := []; validationMessage := msgNone;
     editingIndex := -1; editInput := [] |}.

(** The result object of [validateAndFormatText]. *)
Record Validation := mkValidation {
  isValid : bool;
  formattedText : jsstring;
  message : string
}.

(** ** Handlers *)

(** [isDuplicate(text, excludeIndex)] *)
Definition isDuplicate (st : State) (txt : jsstring) (excludeIndex : Z) : bool :=
  Array_some
    (λ todo index,
       negb (index =? excludeIndex)
       && bool_decide (toLowerCase (text todo) = toLowerCase txt))
    (todos st).

(** [validateAndFormatText(text, excludeIndex)] *)
Definition validateAndFormatText (st : State) (txt : jsstring)
    (excludeIndex : Z) : Validation :=
  let trimmedText := trim txt in
  if bool_decide (trimmedText = []) then
    {| isValid := false; formattedText := []; message := msgEmpty |}
  else if regex_test notAlnumSpace trimmedText then
    {| isValid := false; formattedText := []; message := msgInvalid |}
  else
    let alphanumericOnly := regex_remove_all notAlnumSpace trimmedText in
    let formatted :=
      toUpperCase (charAt 0 alphanumericOnly)
      ++ toLowerCase (slice 1 alphanumericOnly) in
    if isDuplicate st formatted excludeIndex then
      {| isValid := false; formattedText := []; message := msgDuplicate |}
    else
      {| isValid := true; formattedText := formatted; message := msgNone |}.

(** [addTodo]: validates the [input] cell with the default
    [excludeIndex = -1]. *)
Definition addTodo (st : State) : State :=
  let result := validateAndFormatText st (input st) (-1) in
  if negb (isValid result) then
    {| todos := todos st; input := input st;
       validationMessage := message result;
       editingIndex := editingIndex st; editInput := editInput st |}
  else
    {| todos := todos st ++ [ {| text := formattedText result; completed := false |} ];
       input := [];
       validationMessage := msgNone;
       editingIndex := editingIndex st; editInput := editInput st |}.

(** [removeTodo(index)] *)
Definition removeTodo (index : Z) (st : State) : State :=
  {| todos := Array_filter (λ _ i, negb (i =? index)) (todos st);
     input := input st; validationMessage := validationMessage st;
     editingIndex := editingIndex st; editInput := editInput st |}.

(** [toggleTodo(index)] *)
Definition toggleTodo (index : Z) (st : State) : State :=
  {| todos :=
       Array_map
         (λ todo i,
            if i =? index
            then {| text := text todo; completed := negb (completed todo) |}
            else todo)
         (todos st);
     input := input st; validationMessage := validationMessage st;
     editingIndex := editingIndex st; editInput := editInput st |}.

(** [saveEdit(index)]: validates the [editInput] cell, excluding [index]
    from the duplicate check. *)
Definition saveEdit (index : Z) (st : State) : State :=
  let result := validateAndFormatText st (editInput st) index in
  if negb (isValid result) then
    {| todos := todos st; input := input st;
       validationMessage := message result;
       editingIndex := editingIndex st; editInput := editInput st |}
  else
    {| todos :=
         Array_map
           (λ todo i,
              if i =? index
              then {| text := formattedText result; completed := completed todo |}
              else todo)
           (todos st);
       input := input st;
       validationMessage := msgNone;
       editingIndex := -1; editInput := editInput st |}.

(** [cancelEdit] *)
Definition cancelEdit (st : State) : State :=
  {| todos := todos st; input := input st; validationMessage := msgNone;
     editingIndex := -1; editInput := editInput st |}.

(** The [onChange] handler of the add field: [setInput(value)] and the
    message is cleared. *)
Definition onInputChange (value : jsstring) (st : State) : State :=
  {| todos := todos st; input := value; validationMessage := msgNone;
     editingIndex := editingIndex st; editInput := editInput st |}.

(** The [onChange] handler of the edit field. *)
Definition onEditChange (value : jsstring) (st : State) : State :=
  {| todos := todos st; input := input st; validationMessage := msgNone;
     editingIndex := editingIndex st; editInput := value |}.

(** [getIncompleteTodos()] and [getCompletedTodos()] *)
Definition getIncompleteTodos (st : State) : list Todo :=
  List.filter (λ todo, negb (completed todo)) (todos st).
Definition getCompletedTodos (st : State) : list Todo :=
  List.filter (λ todo, completed todo) (todos st).

(** ** The store operations

    What a user intent amounts to: the text is typed into the field (its
    [onChange] handler runs) and the handler of the button is called. *)

Module Store.

Definition add (raw : jsstring) (st : State) : State :=
  addTodo (onInputChange raw st).

Definition edit (index : Z) (raw : jsstring) (st : State) : State :=
  saveEdit index (onEditChange raw st).

Definition toggle (index : Z) (st : State) : State := toggleTodo index st.

Definition delete (index : Z) (st : State) : State := removeTodo index st.

Definition activeItems (st : State) : list Todo := getIncompleteTodos st.

Definition completedItems (st : State) : list Todo := getCompletedTodos st.

End Store.

(** The error names of the specification.  The component reports an error
    only through [validationMessage]; [errorOf] reads the name off the
    message.  No message of the source stands for [IndexOutOfRange]. *)
Inductive ValidationError :=
  | Empty | InvalidCharacters | DuplicateItem | IndexOutOfRange.

Definition errorOf (msg : string) : option ValidationError :=
  if String.eqb msg msgEmpty then Some Empty
  else if String.eqb msg msgInvalid then Some InvalidCharacters
  else if String.eqb msg msgDuplicate then Some DuplicateItem
  else None.

(** The error on display in a state, if any. *)
Definition reported (st : State) : option ValidationError :=
  errorOf (validationMessage st).

(** States reachable from the empty collection. *)
Inductive Op :=
  | OpAdd (raw : jsstring)
  | OpEdit (index : Z) (raw : jsstring)
  | OpToggle (index : Z)
  | OpDelete (index : Z).

Definition run (o : Op) (st : State) : State :=
  match o with
  | OpAdd raw => Store.add raw st
  | OpEdit index raw => Store.edit index raw st
  | OpToggle index => Store.toggle index st
  | OpDelete index => Store.delete index st
  end.

Definition runAll (ops : list Op) (st : State) : State :=
  foldl (λ s o, run o s) st ops.

Inductive reachable : State → Prop :=
  | reachable_initial : reachable initial
  | reachable_step st o : reachable st → reachable (run o st).

(** ** Predicates used in the statements *)

(** A code unit the source's class lets through: [a-zA-Z0-9] or [\s]. *)
Definition allowedUnit (c : N) : Prop := isAsciiAlnum c || isWhiteSpace c = true.

(** The class [[A-Za-z0-9 ]]: a letter, a digit or the space U+0020. *)
Definition isAlnumOrBlank (c : N) : bool := isAsciiAlnum c || (c =? 32)%N.

(** The stored form of an accepted text: first unit upper-cased, the rest
    lower-cased. *)
Definition capitalized (t : jsstring) : jsstring :=
  toUpperCase (charAt 0 t) ++ toLowerCase (slice 1 t).

(** A text the validation lets through unless it is a duplicate. *)
Definition normalizes (raw : jsstring) : Prop :=
  trim raw ≠ [] ∧ regex_test notAlnumSpace (trim raw) = false.

(** The callbacks of the two [map] calls, by name. *)
Definition setText (txt : jsstring) (index : Z) (todo : Todo) (i : Z) : Todo :=
  if i =? index then {| text := txt; completed := completed todo |} else todo.

Definition flipAt (index : Z) (todo : Todo) (i : Z) : Todo :=
  if i =? index
  then {| text := text todo; completed := negb (completed todo) |}
  else todo.

(** No two positions hold texts that are equal in lower case. *)
Definition distinctTexts (l : list Todo) : Prop :=
  ∀ i j a b, l !! i = Some a → l !! j = Some b → i ≠ j →
             toLowerCase (text a) ≠ toLowerCase (text b).

(** Every text is non-empty and made of letters, digits and white space. *)
Definition wellFormedText (t : Todo) : Prop :=
  text t ≠ [] ∧ Forall allowedUnit (text t).

(** The same with the space U+0020 as the only white space let through. *)
Definition strictText (t : Todo) : Prop :=
  text t ≠ [] ∧ Forall (λ c, isAlnumOrBlank c = true) (text t).

(** Sample inputs and states: a tab between two letters, a collection of
    one item, and one of two items the second of which is completed. *)
Definition tabbed : jsstring := [97; 9; 98]%N.

Definition oneItem : State := Store.add (js "task") initial.

Definition twoItems : State :=
  Store.toggle 1 (Store.add (js "second todo") (Store.add (js "first todo") initial)).

(** ** The other handlers of the component *)

(** [startEditing(index)].  [todos[index]] is [undefined] when [index] is
    no position of the array, and reading [.text] off it raises a
    [TypeError]; [None] stands for the raised exception (what React commits
    after it is not modelled).  Otherwise the three cells are set. *)
Definition startEditing (index : Z) (st : State) : option State :=
  match (if index <? 0 then None else todos st !! Z.to_nat index) with
  | None => None
  | Some todo =>
      Some {| todos := todos st; input := input st;
              validationMessage := msgNone;
              editingIndex := index; editInput := text todo |}
  end.

(** [handleKeyPress(e)]: only the key [Enter] adds. *)
Definition handleKeyPress (key : string) (st : State) : State :=
  if String.eqb key "Enter" then addTodo st else st.

(** The first version of the component (src/TodoListCopilot.jsx): two
    state cells, and an [addTodo] that drops the characters outside the
    class instead of refusing them and has no duplicate check. *)
Module V1.

Record State := mkState {
  todos : list Todo;
  input : jsstring
}.

Definition addTodo (st : State) : State :=
  let trimmedInput := trim (input st) in
  if bool_decide (trimmedInput = []) then st
  else
    let alphanumericOnly := regex_remove_all notAlnumSpace trimmedInput in
    let capitalizedText :=
      toUpperCase (charAt 0 alphanumericOnly)
      ++ toLowerCase (slice 1 alphanumericOnly) in
    if bool_decide (capitalizedText = []) then st
    else
      {| todos := todos st ++ [ {| text := capitalizedText; completed := false |} ];
         input := [] |}.

(** The [onChange] handler of the field. *)
Definition onInputChange (value : jsstring) (st : State) : State :=
  {| todos := todos st; input := value |}.

End V1.

(** ** Further predicates *)

(** A stored text is a fixed point of trimming and of the formatting. *)
Definition storedForm (t : jsstring) : Prop :=
  trim t = t ∧ capitalized t = t.

(** No white space at either end. *)
Definition noEdgeSpace (t : jsstring) : Prop :=
  (∀ c, head t = Some c → isWhiteSpace c = false)
  ∧ (∀ c, last t = Some c → isWhiteSpace c = false).

(** An item with its flag negated. *)
Definition flipped (it : Todo) : Todo :=
  {| text := text it; completed := negb (completed it) |}.

(** * Properties *)

(** ** Sanity checks on concrete inputs *)

Example add_first_second :
  todos (runAll [OpAdd (js "first task"); OpAdd (js "Second Task"); OpToggle 0] initial)
  = [ {| text := js "First task"; completed := true |};
      {| text := js "Second task"; completed := false |} ].
Proof. vm_compute. reflexivity. Qed.

Example first_second_sections :
  let st := runAll [OpAdd (js "first task"); OpAdd (js "Second Task"); OpToggle 0]
              initial in
  Store.activeItems st = [ {| text := js "Second task"; completed := false |} ]
  ∧ Store.completedItems st = [ {| text := js "First task"; completed := true |} ].
Proof. by vm_compute. Qed.

Example add_blank : reported (Store.add (js "   ") initial) = Some Empty.
Proof. vm_compute. reflexivity. Qed.

Example add_bangs : reported (Store.add (js "!!!") initial) = Some InvalidCharacters.
Proof. vm_compute. reflexivity. Qed.

(** ** The array methods, by position *)

Section ArrayFacts.
Context {A : Type}.
Implicit Types (l : list A) (k index : Z) (n : nat).

Lemma map_from_lookup {B} (f : A → Z → B) k l n :
  map_from f k l !! n = (λ x, f x (k + Z.of_nat n)) <$> (l !! n).
Proof.
  revert k n. induction l as [|x r IH]; intros k n; [done|].
  destruct n as [|n]; simpl.
  - by rewrite Z.add_0_r.
  - rewrite IH. destruct (r !! n); simpl; [|done].
    do 2 f_equal. lia.
Qed.

Lemma map_from_length {B} (f : A → Z → B) k l :
  length (map_from f k l) = length l.
Proof. revert k. induction l; intros; simpl; [done|]. by rewrite IHl. Qed.

Lemma some_from_true (p : A → Z → bool) k l :
  some_from p k l = true ↔
  ∃ n x, l !! n = Some x ∧ p x (k + Z.of_nat n) = true.
Proof.
  revert k. induction l as [|x r IH]; intros k; simpl.
  - split; [done|]. by intros (n & y & Hn & _).
  - rewrite orb_true_iff, IH. split.
    + intros [Hp|(n & y & Hn & Hp)].
      * exists 0%nat, x. by rewrite Z.add_0_r.
      * exists (S n), y. split; [done|].
        by replace (k + Z.of_nat (S n)) with (k + 1 + Z.of_nat n) by lia.
    + intros ([|n] & y & Hn & Hp); simpl in Hn.
      * left. injection Hn as ->. by rewrite Z.add_0_r in Hp.
      * right. exists n, y. split; [done|].
        by replace (k + 1 + Z.of_nat n) with (k + Z.of_nat (S n)) by lia.
Qed.

(** Filtering on [i !== index] keeps everything when [index] is no
    position of the array and removes that one position otherwise. *)
Lemma filter_from_none k index l :
  index < k ∨ k + Z.of_nat (length l) ≤ index →
  filter_from (λ _ i, negb (i =? index)) k l = l.
Proof.
  revert k. induction l as [|x r IH]; intros k Hout; simpl; [done|].
  simpl in Hout.
  destruct (Z.eqb_spec k index) as [->|_]; [lia|]. simpl.
  f_equal. apply IH. lia.
Qed.

Lemma filter_from_at k l n :
  (n < length l)%nat →
  filter_from (λ _ i, negb (i =? k + Z.of_nat n)) k l
  = take n l ++ drop (S n) l.
Proof.
  revert k n. induction l as [|x r IH]; intros k n Hn; simpl in *; [lia|].
  destruct n as [|n].
  - rewrite Z.add_0_r, Z.eqb_refl. simpl.
    rewrite drop_0. apply filter_from_none. lia.
  - destruct (Z.eqb_spec k (k + Z.of_nat (S n))) as [?|_]; [lia|]. simpl.
    f_equal.
    replace (k + Z.of_nat (S n)) with (k + 1 + Z.of_nat n) by lia.
    apply IH. lia.
Qed.
End ArrayFacts.

(** ** Case conversion and the character class *)

Lemma toLowerUnit_allowed c : allowedUnit c → allowedUnit (toLowerUnit c).
Proof.
  unfold allowedUnit, toLowerUnit. intros H.
  destruct (isAsciiUpper c) eqn:E; [|done].
  unfold isAsciiUpper in E. apply andb_true_iff in E as [E1 E2].
  apply N.leb_le in E1, E2.
  unfold isAsciiAlnum, isAsciiLower.
  replace (97 <=? c + 32)%N with true by (symmetry; apply N.leb_le; lia).
  replace (c + 32 <=? 122)%N with true by (symmetry; apply N.leb_le; lia).
  done.
Qed.

Lemma toUpperUnit_allowed c : allowedUnit c → allowedUnit (toUpperUnit c).
Proof.
  unfold allowedUnit, toUpperUnit. intros H.
  destruct (isAsciiLower c) eqn:E; [|done].
  unfold isAsciiLower in E. apply andb_true_iff in E as [E1 E2].
  apply N.leb_le in E1, E2.
  unfold isAsciiAlnum, isAsciiUpper.
  replace (65 <=? c - 32)%N with true by (symmetry; apply N.leb_le; lia).
  replace (c - 32 <=? 90)%N with true by (symmetry; apply N.leb_le; lia).
  by rewrite orb_true_r.
Qed.

Lemma regex_test_false s :
  regex_test notAlnumSpace s = false ↔ Forall allowedUnit s.
Proof.
  unfold regex_test, allowedUnit, notAlnumSpace. induction s as [|c r IH]; simpl.
  - split; [constructor|done].
  - rewrite orb_false_iff, IH, Forall_cons, negb_false_iff. done.
Qed.

Lemma regex_test_true s :
  regex_test notAlnumSpace s = true ↔ ∃ c, c ∈ s ∧ notAlnumSpace c = true.
Proof.
  unfold regex_test. rewrite existsb_exists.
  split; intros (c & Hc & Hn); exists c; split; try done;
    by apply list_elem_of_In.
Qed.

Lemma regex_remove_all_id s :
  regex_test notAlnumSpace s = false →
  regex_remove_all notAlnumSpace s = s.
Proof.
  unfold regex_test, regex_remove_all. induction s as [|c r IH]; simpl; [done|].
  intros [Hc Hr]%orb_false_iff. rewrite Hc. simpl. f_equal. auto.
Qed.

Lemma capitalized_nonempty t : t ≠ [] → capitalized t ≠ [].
Proof. by destruct t. Qed.

Lemma capitalized_allowed t : Forall allowedUnit t → Forall allowedUnit (capitalized t).
Proof.
  intros H. destruct t as [|c r]; [done|].
  apply Forall_cons in H as [Hc Hr]. unfold capitalized, charAt, slice. simpl.
  rewrite drop_0. constructor; [by apply toUpperUnit_allowed|].
  unfold toLowerCase. apply Forall_fmap.
  eapply Forall_impl; [exact Hr|]. intros x Hx. by apply toLowerUnit_allowed.
Qed.

(** ** [validateAndFormatText] and [isDuplicate], case by case *)

Lemma isDuplicate_true st txt ex :
  isDuplicate st txt ex = true ↔
  ∃ n t, todos st !! n = Some t ∧ Z.of_nat n ≠ ex
         ∧ toLowerCase (text t) = toLowerCase txt.
Proof.
  unfold isDuplicate, Array_some. rewrite some_from_true.
  split; intros (n & t & Hn & H); exists n, t; split; try done.
  - apply andb_true_iff in H as [H1 H2].
    apply negb_true_iff, Z.eqb_neq in H1. apply bool_decide_eq_true in H2.
    split; [lia|done].
  - destruct H as [H1 H2]. apply andb_true_iff. split.
    + apply negb_true_iff, Z.eqb_neq. lia.
    + by apply bool_decide_eq_true.
Qed.

Lemma isDuplicate_false st txt ex :
  isDuplicate st txt ex = false ↔
  ∀ n t, todos st !! n = Some t → Z.of_nat n ≠ ex →
         toLowerCase (text t) ≠ toLowerCase txt.
Proof.
  rewrite <- not_true_iff_false, isDuplicate_true. split.
  - intros H n t Hn Hex Heq. apply H. by exists n, t.
  - intros H (n & t & Hn & Hex & Heq). by eapply H.
Qed.

Lemma validate_empty st txt ex :
  trim txt = [] →
  validateAndFormatText st txt ex
  = {| isValid := false; formattedText := []; message := msgEmpty |}.
Proof. intros H. unfold validateAndFormatText. by rewrite H. Qed.

Lemma validate_invalid st txt ex :
  trim txt ≠ [] → regex_test notAlnumSpace (trim txt) = true →
  validateAndFormatText st txt ex
  = {| isValid := false; formattedText := []; message := msgInvalid |}.
Proof.
  intros H1 H2. unfold validateAndFormatText.
  rewrite bool_decide_eq_false_2 by done. by rewrite H2.
Qed.

Lemma validate_accepted st txt ex :
  trim txt ≠ [] → regex_test notAlnumSpace (trim txt) = false →
  validateAndFormatText st txt ex
  = if isDuplicate st (capitalized (trim txt)) ex
    then {| isValid := false; formattedText := []; message := msgDuplicate |}
    else {| isValid := true; formattedText := capitalized (trim txt);
            message := msgNone |}.
Proof.
  intros H1 H2. unfold validateAndFormatText.
  rewrite bool_decide_eq_false_2 by done. rewrite H2.
  by rewrite regex_remove_all_id.
Qed.

(** The duplicate check reads only the [todos] cell. *)
Lemma validate_todos_only st st' txt ex :
  todos st = todos st' →
  validateAndFormatText st txt ex = validateAndFormatText st' txt ex.
Proof.
  intros H. unfold validateAndFormatText, isDuplicate. by rewrite H.
Qed.

(** ** The four outcomes of [add] *)

Lemma add_when_empty raw st :
  trim raw = [] →
  Store.add raw st
  = {| todos := todos st; input := raw; validationMessage := msgEmpty;
       editingIndex := editingIndex st; editInput := editInput st |}.
Proof.
  intros H. unfold Store.add, addTodo.
  rewrite (validate_todos_only _ st) by done. simpl.
  by rewrite validate_empty.
Qed.

Lemma add_when_invalid raw st :
  trim raw ≠ [] → regex_test notAlnumSpace (trim raw) = true →
  Store.add raw st
  = {| todos := todos st; input := raw; validationMessage := msgInvalid;
       editingIndex := editingIndex st; editInput := editInput st |}.
Proof.
  intros H1 H2. unfold Store.add, addTodo.
  rewrite (validate_todos_only _ st) by done. simpl.
  by rewrite validate_invalid.
Qed.

Lemma add_when_duplicate raw st :
  normalizes raw → isDuplicate st (capitalized (trim raw)) (-1) = true →
  Store.add raw st
  = {| todos := todos st; input := raw; validationMessage := msgDuplicate;
       editingIndex := editingIndex st; editInput := editInput st |}.
Proof.
  intros [H1 H2] H3. unfold Store.add, addTodo.
  rewrite (validate_todos_only _ st) by done. simpl.
  rewrite validate_accepted by done. by rewrite H3.
Qed.

Lemma add_when_fresh raw st :
  normalizes raw → isDuplicate st (capitalized (trim raw)) (-1) = false →
  Store.add raw st
  = {| todos := todos st
                ++ [ {| text := capitalized (trim raw); completed := false |} ];
       input := []; validationMessage := msgNone;
       editingIndex := editingIndex st; editInput := editInput st |}.
Proof.
  intros [H1 H2] H3. unfold Store.add, addTodo.
  rewrite (validate_todos_only _ st) by done. simpl.
  rewrite validate_accepted by done. by rewrite H3.
Qed.

(** ** The four outcomes of [edit] *)

Lemma edit_when_empty index raw st :
  trim raw = [] →
  Store.edit index raw st
  = {| todos := todos st; input := input st; validationMessage := msgEmpty;
       editingIndex := editingIndex st; editInput := raw |}.
Proof.
  intros H. unfold Store.edit, saveEdit.
  rewrite (validate_todos_only _ st) by done. simpl.
  by rewrite validate_empty.
Qed.

Lemma edit_when_invalid index raw st :
  trim raw ≠ [] → regex_test notAlnumSpace (trim raw) = true →
  Store.edit index raw st
  = {| todos := todos st; input := input st; validationMessage := msgInvalid;
       editingIndex := editingIndex st; editInput := raw |}.
Proof.
  intros H1 H2. unfold Store.edit, saveEdit.
  rewrite (validate_todos_only _ st) by done. simpl.
  by rewrite validate_invalid.
Qed.

Lemma edit_when_duplicate index raw st :
  normalizes raw → isDuplicate st (capitalized (trim raw)) index = true →
  Store.edit index raw st
  = {| todos := todos st; input := input st; validationMessage := msgDuplicate;
       editingIndex := editingIndex st; editInput := raw |}.
Proof.
  intros [H1 H2] H3. unfold Store.edit, saveEdit.
  rewrite (validate_todos_only _ st) by done. simpl.
  rewrite validate_accepted by done. by rewrite H3.
Qed.

Lemma edit_when_fresh index raw st :
  normalizes raw → isDuplicate st (capitalized (trim raw)) index = false →
  Store.edit index raw st
  = {| todos := Array_map (setText (capitalized (trim raw)) index) (todos st);
       input := input st; validationMessage := msgNone;
       editingIndex := -1; editInput := raw |}.
Proof.
  intros [H1 H2] H3. unfold Store.edit, saveEdit.
  rewrite (validate_todos_only _ st) by done. simpl.
  rewrite validate_accepted by done. by rewrite H3.
Qed.

(** What [edit] shows is the message of the validation, whatever the index. *)
Lemma edit_message index raw st :
  validationMessage (Store.edit index raw st)
  = message (validateAndFormatText st raw index).
Proof.
  unfold Store.edit, saveEdit.
  rewrite (validate_todos_only _ st) by done. simpl.
  by destruct (isValid (validateAndFormatText st raw index)) eqn:Hv;
    [unfold validateAndFormatText in *; repeat case_match|].
Qed.

Lemma toggle_state index st :
  Store.toggle index st
  = {| todos := Array_map (flipAt index) (todos st);
       input := input st; validationMessage := validationMessage st;
       editingIndex := editingIndex st; editInput := editInput st |}.
Proof. done. Qed.

Lemma toggle_todos index st :
  todos (Store.toggle index st) = Array_map (flipAt index) (todos st).
Proof. done. Qed.

(** The collection after an [edit] is either the old one or the old one
    with the text at [index] replaced by the stored form of the input. *)
Lemma edit_todos index raw st :
  todos (Store.edit index raw st) = todos st
  ∨ (normalizes raw
     ∧ isDuplicate st (capitalized (trim raw)) index = false
     ∧ validationMessage (Store.edit index raw st) = msgNone
     ∧ todos (Store.edit index raw st)
       = Array_map (setText (capitalized (trim raw)) index) (todos st)).
Proof.
  destruct (decide (trim raw = [])) as [He|He].
  { left. by rewrite edit_when_empty. }
  destruct (regex_test notAlnumSpace (trim raw)) eqn:Hr.
  { left. by rewrite edit_when_invalid. }
  destruct (isDuplicate st (capitalized (trim raw)) index) eqn:Hd.
  { left. by rewrite edit_when_duplicate. }
  right. by rewrite edit_when_fresh.
Qed.

Lemma add_todos raw st :
  todos (Store.add raw st) = todos st
  ∨ (normalizes raw
     ∧ isDuplicate st (capitalized (trim raw)) (-1) = false
     ∧ validationMessage (Store.add raw st) = msgNone
     ∧ todos (Store.add raw st)
       = todos st ++ [ {| text := capitalized (trim raw); completed := false |} ]).
Proof.
  destruct (decide (trim raw = [])) as [He|He].
  { left. by rewrite add_when_empty. }
  destruct (regex_test notAlnumSpace (trim raw)) eqn:Hr.
  { left. by rewrite add_when_invalid. }
  destruct (isDuplicate st (capitalized (trim raw)) (-1)) eqn:Hd.
  { left. by rewrite add_when_duplicate. }
  right. by rewrite add_when_fresh.
Qed.

(** * Adding *)

Lemma isAlnumOrBlank_allowed c : isAlnumOrBlank c = true → allowedUnit c.
Proof.
  unfold isAlnumOrBlank, allowedUnit. intros [H|H]%orb_true_iff.
  - by rewrite H.
  - apply N.eqb_eq in H as ->. by rewrite orb_true_r.
Qed.

Lemma no_collision_isDuplicate st txt :
  (∀ t, t ∈ todos st → toLowerCase (text t) ≠ toLowerCase txt) →
  isDuplicate st txt (-1) = false.
Proof.
  intros H. apply isDuplicate_false. intros n t Hn _.
  apply H. by eapply list_elem_of_lookup_2.
Qed.

Lemma collision_isDuplicate st txt :
  (∃ t, t ∈ todos st ∧ toLowerCase (text t) = toLowerCase txt) →
  isDuplicate st txt (-1) = true.
Proof.
  intros (t & [n Hn]%list_elem_of_lookup_1 & Heq).
  apply isDuplicate_true. exists n, t. repeat split; [done|lia|done].
Qed.

(** C1.  A raw input whose trimmed form is non-empty, is made of letters,
    digits and spaces only, and whose stored form collides with no item of
    the collection (compared in lower case) is added: no message is
    shown, exactly one item is appended at the end, not completed, its
    text the trimmed input with the first unit upper-cased and the rest
    lower-cased, and every item that was there stays where it was. *)
Theorem add_valid_appends (st : State) (raw : jsstring) :
  trim raw ≠ [] →
  Forall (λ c, isAlnumOrBlank c = true) (trim raw) →
  (∀ t, t ∈ todos st →
        toLowerCase (text t)
        ≠ toLowerCase (toUpperCase (charAt 0 (trim raw))
                       ++ toLowerCase (slice 1 (trim raw)))) →
  validationMessage (Store.add raw st) = msgNone
  ∧ todos (Store.add raw st)
    = todos st
      ++ [ {| text := toUpperCase (charAt 0 (trim raw))
                      ++ toLowerCase (slice 1 (trim raw));
              completed := false |} ]
  ∧ (∀ i t, todos st !! i = Some t → todos (Store.add raw st) !! i = Some t).
Proof.
  intros Hne Hcls Hfresh.
  assert (normalizes raw) as Hn.
  { split; [done|]. apply regex_test_false.
    eapply Forall_impl; [exact Hcls|]. apply isAlnumOrBlank_allowed. }
  rewrite add_when_fresh; [|done|by apply no_collision_isDuplicate].
  simpl. repeat split.
  intros i t Hi. rewrite lookup_app_l; [done|]. by eapply lookup_lt_Some.
Qed.

Lemma add_valid_appends_witness :
  todos (Store.add (js "  buy MILK 2 ") initial)
  = [ {| text := js "Buy milk 2"; completed := false |} ].
Proof.
  apply (add_valid_appends initial (js "  buy MILK 2 ")).
  - vm_compute. discriminate.
  - vm_compute. repeat constructor.
  - intros t Ht. vm_compute in Ht. inversion Ht.
Defined.

(** What the guard of [validateAndFormatText] does refuse.  An input that
    trims to the empty string is refused with [Empty]; otherwise an input
    whose trimmed form holds a code unit that is neither a letter, a digit
    nor in the class [\s] is refused with [InvalidCharacters]; in both
    cases the collection is left as it was. *)
Theorem add_rejects (st : State) (raw : jsstring) :
  (trim raw = [] →
     reported (Store.add raw st) = Some Empty
     ∧ todos (Store.add raw st) = todos st)
  ∧ (trim raw ≠ [] →
     (∃ c, c ∈ trim raw ∧ isAsciiAlnum c = false ∧ isWhiteSpace c = false) →
     reported (Store.add raw st) = Some InvalidCharacters
     ∧ todos (Store.add raw st) = todos st).
Proof.
  split.
  - intros He. by rewrite add_when_empty.
  - intros Hne (c & Hc & Ha & Hw).
    rewrite add_when_invalid; [done|done|].
    apply regex_test_true. exists c. split; [done|].
    unfold notAlnumSpace. by rewrite Ha, Hw.
Qed.

Lemma add_rejects_witness :
  reported (Store.add (js "   ") initial) = Some Empty
  ∧ reported (Store.add (js " do it! ") initial) = Some InvalidCharacters.
Proof.
  split.
  - apply (add_rejects initial (js "   ")). reflexivity.
  - apply (add_rejects initial (js " do it! ")).
    + vm_compute. discriminate.
    + exists 33%N. split; [|by vm_compute].
      vm_compute. repeat first [apply list_elem_of_here | apply list_elem_of_further].
Defined.

(** C2, at a tab.  The message of the source and its README allow
    letters, numbers and spaces only, but the guard is written with the
    class [\s].  For the input [a], tab, [b]: the trimmed input is not
    empty and holds a code unit outside [[A-Za-z0-9 ]], yet [add] is not
    refused with [InvalidCharacters]: no error is shown and the text, tab
    included, is stored. *)
Lemma add_tab_accepted :
  trim tabbed ≠ []
  ∧ (∃ c, c ∈ trim tabbed ∧ isAlnumOrBlank c = false)
  ∧ reported (Store.add tabbed initial) ≠ Some InvalidCharacters
  ∧ todos (Store.add tabbed initial)
    = [ {| text := [65; 9; 98]%N; completed := false |} ].
Proof.
  split; [by vm_compute|]. split.
  - exists 9%N. split; [|by vm_compute].
    vm_compute. apply list_elem_of_further, list_elem_of_here.
  - split; [by vm_compute|]. by vm_compute.
Qed.

(** C3.  For an input that passes validation: when its stored form equals,
    in lower case, the text of an item of the collection, [add] is refused
    with [DuplicateItem] and the collection is left as it was; when no item
    does, [add] is not refused with [DuplicateItem].  Adding [task] and
    then [TASK] to the empty collection leaves one item. *)
Theorem add_duplicate (st : State) (raw : jsstring) :
  normalizes raw →
  ((∃ t, t ∈ todos st
         ∧ toLowerCase (text t) = toLowerCase (capitalized (trim raw))) →
     reported (Store.add raw st) = Some DuplicateItem
     ∧ todos (Store.add raw st) = todos st)
  ∧ ((∀ t, t ∈ todos st →
           toLowerCase (text t) ≠ toLowerCase (capitalized (trim raw))) →
     reported (Store.add raw st) ≠ Some DuplicateItem)
  ∧ (reported (Store.add (js "TASK") (Store.add (js "task") initial))
     = Some DuplicateItem
     ∧ length (todos (Store.add (js "TASK") (Store.add (js "task") initial)))
       = 1%nat).
Proof.
  intros Hn. split; [|split].
  - intros Hdup. by rewrite add_when_duplicate; [| |apply collision_isDuplicate].
  - intros Hfresh.
    by rewrite add_when_fresh; [| |apply no_collision_isDuplicate].
  - by vm_compute.
Qed.

Lemma add_duplicate_witness :
  reported (Store.add (js " Task ") (Store.add (js "task") initial))
  = Some DuplicateItem.
Proof.
  refine (proj1 (proj1 (add_duplicate (Store.add (js "task") initial)
                          (js " Task ") _) _)).
  - split; by vm_compute.
  - exists {| text := js "Task"; completed := false |}. split; [|by vm_compute].
    vm_compute. apply list_elem_of_here.
Defined.

(** * The collection after each operation, by position *)

Lemma Array_map_lookup {A B} (f : A → Z → B) (l : list A) (n : nat) :
  Array_map f l !! n = (λ x, f x (Z.of_nat n)) <$> (l !! n).
Proof. unfold Array_map. by rewrite map_from_lookup. Qed.

Lemma Array_map_length {A B} (f : A → Z → B) (l : list A) :
  length (Array_map f l) = length l.
Proof. apply map_from_length. Qed.

Lemma delete_todos_outside index st :
  index < 0 ∨ Z.of_nat (length (todos st)) ≤ index →
  todos (Store.delete index st) = todos st.
Proof.
  intros H. unfold Store.delete, removeTodo, Array_filter. simpl.
  apply filter_from_none. lia.
Qed.

Lemma delete_todos_inside index st :
  0 ≤ index < Z.of_nat (length (todos st)) →
  todos (Store.delete index st) = delete (Z.to_nat index) (todos st).
Proof.
  intros H. unfold Store.delete, removeTodo, Array_filter. simpl.
  rewrite delete_take_drop.
  pose proof (filter_from_at 0 (todos st) (Z.to_nat index)) as Hat.
  replace (0 + Z.of_nat (Z.to_nat index)) with index in Hat by lia.
  apply Hat. lia.
Qed.

(** * Invariants of the reachable states *)

Lemma distinctTexts_snoc l x :
  distinctTexts l →
  (∀ n t, l !! n = Some t → toLowerCase (text t) ≠ toLowerCase (text x)) →
  distinctTexts (l ++ [x]).
Proof.
  intros Hl Hx i j a b Hi Hj Hij.
  apply lookup_snoc_Some in Hi as [[_ Hi]|[-> <-]];
    apply lookup_snoc_Some in Hj as [[_ Hj]|[-> <-]].
  - by eapply Hl.
  - by eapply Hx.
  - intros Heq. by eapply Hx.
  - done.
Qed.

Lemma distinctTexts_flip index l :
  distinctTexts l → distinctTexts (Array_map (flipAt index) l).
Proof.
  intros Hl i j a b Hi Hj Hij.
  rewrite Array_map_lookup in Hi, Hj.
  destruct (l !! i) as [a0|] eqn:Ei; [|done].
  destruct (l !! j) as [b0|] eqn:Ej; [|done].
  simpl in Hi, Hj. injection Hi as <-. injection Hj as <-.
  assert (∀ t k, text (flipAt index t k) = text t) as Htext.
  { intros t k. unfold flipAt. by destruct (k =? index). }
  rewrite !Htext. by eapply Hl.
Qed.

Lemma distinctTexts_setText txt index l :
  distinctTexts l →
  (∀ n t, l !! n = Some t → Z.of_nat n ≠ index →
          toLowerCase (text t) ≠ toLowerCase txt) →
  distinctTexts (Array_map (setText txt index) l).
Proof.
  intros Hl Hfresh i j a b Hi Hj Hij.
  rewrite Array_map_lookup in Hi, Hj.
  destruct (l !! i) as [a0|] eqn:Ei; [|done].
  destruct (l !! j) as [b0|] eqn:Ej; [|done].
  simpl in Hi, Hj. injection Hi as <-. injection Hj as <-.
  unfold setText.
  destruct (Z.eqb_spec (Z.of_nat i) index) as [Hi|Hi];
    destruct (Z.eqb_spec (Z.of_nat j) index) as [Hj|Hj]; simpl.
  - lia.
  - intros Heq. by eapply (Hfresh j b0).
  - by eapply Hfresh.
  - by eapply Hl.
Qed.

Lemma distinctTexts_delete n l :
  distinctTexts l → distinctTexts (delete n l).
Proof.
  intros Hl i j a b Hi Hj Hij.
  rewrite list_lookup_delete in Hi, Hj.
  repeat case_decide; eapply Hl; eauto; lia.
Qed.

Lemma initial_distinctTexts : distinctTexts (todos initial).
Proof. intros i j a b Hi. done. Qed.

Lemma run_distinctTexts o st :
  distinctTexts (todos st) → distinctTexts (todos (run o st)).
Proof.
  intros Hst. destruct o as [raw|index raw|index|index]; cbn [run].
  - destruct (add_todos raw st) as [->|(_ & Hd & _ & ->)]; [done|].
    apply distinctTexts_snoc; [done|]. simpl. intros n t Hn.
    eapply isDuplicate_false; [exact Hd|exact Hn|lia].
  - destruct (edit_todos index raw st) as [->|(_ & Hd & _ & ->)]; [done|].
    apply distinctTexts_setText; [done|]. by apply isDuplicate_false.
  - rewrite toggle_todos. by apply distinctTexts_flip.
  - destruct (decide (0 ≤ index < Z.of_nat (length (todos st)))) as [Hin|Hout].
    + rewrite delete_todos_inside by done. by apply distinctTexts_delete.
    + rewrite delete_todos_outside by lia. done.
Qed.

(** C4.  In every state reachable from the empty collection by [add],
    [edit], [toggle] and [delete], no two items have texts that are equal
    when compared in lower case. *)
Theorem reachable_distinctTexts (st : State) :
  reachable st → distinctTexts (todos st).
Proof.
  induction 1 as [|st o _ IH].
  - apply initial_distinctTexts.
  - by apply run_distinctTexts.
Qed.

Lemma reachable_distinctTexts_witness :
  distinctTexts
    (todos (run (OpEdit 0 (js "tea")) (run (OpAdd (js "Milk")) (run (OpAdd (js "milk")) initial)))).
Proof.
  apply reachable_distinctTexts.
  apply reachable_step, reachable_step, reachable_step, reachable_initial.
Defined.

Lemma normalizes_wellFormed raw b :
  normalizes raw →
  wellFormedText {| text := capitalized (trim raw); completed := b |}.
Proof.
  intros [Hne Hcls]. split; simpl.
  - by apply capitalized_nonempty.
  - by apply capitalized_allowed, regex_test_false.
Qed.

Lemma run_wellFormed o st :
  Forall wellFormedText (todos st) → Forall wellFormedText (todos (run o st)).
Proof.
  intros Hst. destruct o as [raw|index raw|index|index]; cbn [run].
  - destruct (add_todos raw st) as [->|(Hn & _ & _ & ->)]; [done|].
    apply Forall_app. split; [done|].
    constructor; [|done]. by apply normalizes_wellFormed.
  - destruct (edit_todos index raw st) as [->|(Hn & _ & _ & ->)]; [done|].
    apply Forall_lookup_2. intros i x Hi.
    rewrite Array_map_lookup in Hi.
    destruct (todos st !! i) as [t|] eqn:Ei; [|done].
    simpl in Hi. injection Hi as <-. unfold setText.
    destruct (Z.of_nat i =? index).
    + by apply normalizes_wellFormed.
    + by eapply Forall_lookup_1.
  - rewrite toggle_todos. apply Forall_lookup_2. intros i x Hi.
    rewrite Array_map_lookup in Hi.
    destruct (todos st !! i) as [t|] eqn:Ei; [|done].
    simpl in Hi. injection Hi as <-.
    pose proof (Forall_lookup_1 _ _ _ _ Hst Ei) as Ht.
    unfold flipAt. by destruct (Z.of_nat i =? index).
  - destruct (decide (0 ≤ index < Z.of_nat (length (todos st)))) as [Hin|Hout].
    + rewrite delete_todos_inside by done. by apply Forall_delete.
    + rewrite delete_todos_outside by lia. done.
Qed.

(** What the guard does keep.  In every state reachable from the empty
    collection by [add], [edit], [toggle] and [delete], the text of every
    item is non-empty and made only of letters, digits and code units of
    the class [\s]. *)
Theorem reachable_wellFormed (st : State) :
  reachable st → Forall wellFormedText (todos st).
Proof.
  induction 1 as [|st o _ IH].
  - constructor.
  - by apply run_wellFormed.
Qed.

Lemma reachable_wellFormed_witness :
  Forall wellFormedText
    (todos (run (OpToggle 0) (run (OpAdd tabbed) (run (OpAdd (js "milk")) initial)))).
Proof.
  apply reachable_wellFormed.
  apply reachable_step, reachable_step, reachable_step, reachable_initial.
Defined.

(** C5, at a tab.  It is not so that every reachable state holds only
    texts that are non-empty and made of [[A-Za-z0-9 ]]: one [add] of [a],
    tab, [b] from the empty collection stores a text with the tab in it,
    which the message of the source (letters, numbers and spaces only)
    rules out. *)
Lemma reachable_tab_text :
  ¬ (∀ st, reachable st → Forall strictText (todos st)).
Proof.
  intros H.
  specialize (H (run (OpAdd tabbed) initial)
                (reachable_step _ _ reachable_initial)).
  apply (Forall_lookup_1 _ _ 0%nat {| text := [65; 9; 98]%N; completed := false |})
    in H as [_ Hcls]; [|by vm_compute].
  simpl in Hcls.
  apply (Forall_lookup_1 _ _ 1%nat 9%N) in Hcls; [|done].
  by vm_compute in Hcls.
Qed.

(** * Editing *)

Lemma msgDuplicate_not_none : msgDuplicate ≠ msgNone.
Proof. done. Qed.

Lemma setText_lookup_at txt index (l : list Todo) it :
  0 ≤ index → l !! Z.to_nat index = Some it →
  Array_map (setText txt index) l !! Z.to_nat index
  = Some {| text := txt; completed := completed it |}.
Proof.
  intros H0 Hit. rewrite Array_map_lookup, Hit. simpl.
  unfold setText. by rewrite Z2Nat.id, Z.eqb_refl.
Qed.

(** C6.  For a valid index [index], holding the item [it], and an input
    that passes validation with stored form [new]: when [new] equals, in
    lower case, the text of an item at another position, [edit] is refused
    with [DuplicateItem] and the collection (so the text of [it]) is left
    as it was; when [new] equals, in lower case, the text of [it] itself,
    in a collection with pairwise distinct texts, [edit] goes through; and
    whenever [edit] goes through, the item at [index] has text [new] and
    the [completed] flag of [it]. *)
Theorem edit_valid_index (st : State) (index : Z) (raw : jsstring) (it : Todo) :
  0 ≤ index → todos st !! Z.to_nat index = Some it →
  normalizes raw →
  ((∃ j t, todos st !! j = Some t ∧ Z.of_nat j ≠ index
           ∧ toLowerCase (text t) = toLowerCase (capitalized (trim raw))) →
     reported (Store.edit index raw st) = Some DuplicateItem
     ∧ todos (Store.edit index raw st) = todos st)
  ∧ (distinctTexts (todos st) →
     toLowerCase (capitalized (trim raw)) = toLowerCase (text it) →
     validationMessage (Store.edit index raw st) = msgNone
     ∧ todos (Store.edit index raw st) !! Z.to_nat index
       = Some {| text := capitalized (trim raw); completed := completed it |})
  ∧ (validationMessage (Store.edit index raw st) = msgNone →
     todos (Store.edit index raw st) !! Z.to_nat index
     = Some {| text := capitalized (trim raw); completed := completed it |}).
Proof.
  intros H0 Hit Hn. split; [|split].
  - intros Hdup. by rewrite edit_when_duplicate; [| |apply isDuplicate_true].
  - intros Hdist Hself.
    rewrite edit_when_fresh; [|done|].
    + simpl. split; [done|]. by apply setText_lookup_at.
    + apply isDuplicate_false. intros j t Hj Hne. rewrite Hself.
      eapply Hdist; [exact Hj|exact Hit|lia].
  - destruct (isDuplicate st (capitalized (trim raw)) index) eqn:Hd.
    + rewrite edit_when_duplicate by done. simpl. intros Hmsg.
      by apply msgDuplicate_not_none in Hmsg.
    + rewrite edit_when_fresh by done. simpl. intros _.
      by apply setText_lookup_at.
Qed.

Lemma edit_valid_index_witness :
  (reported (Store.edit 1 (js "FIRST TODO") twoItems) = Some DuplicateItem
   ∧ todos (Store.edit 1 (js "FIRST TODO") twoItems) = todos twoItems)
  ∧ todos (Store.edit 1 (js " second TODO") twoItems) !! 1%nat
    = Some {| text := js "Second todo"; completed := true |}.
Proof.
  split.
  - refine (proj1 (edit_valid_index twoItems 1 (js "FIRST TODO")
                     {| text := js "Second todo"; completed := true |} _ _ _) _).
    + lia.
    + by vm_compute.
    + split; by vm_compute.
    + exists 0%nat, {| text := js "First todo"; completed := false |}.
      split; [by vm_compute|]. split; [lia|by vm_compute].
  - refine (proj2 (proj1 (proj2 (edit_valid_index twoItems 1 (js " second TODO")
                     {| text := js "Second todo"; completed := true |} _ _ _)) _ _)).
    + lia.
    + by vm_compute.
    + split; by vm_compute.
    + apply (run_distinctTexts (OpToggle 1)),
        (run_distinctTexts (OpAdd (js "second todo"))),
        (run_distinctTexts (OpAdd (js "first todo"))), initial_distinctTexts.
    + by vm_compute.
Defined.

(** * Indices that refer to no item *)

Lemma errorOf_not_index msg : errorOf msg ≠ Some IndexOutOfRange.
Proof. unfold errorOf. by repeat case_match. Qed.

Section MapOutside.
Context (g : Z → Todo → Z → Todo).
Hypothesis g_other : ∀ index t i, i ≠ index → g index t i = t.

Lemma map_from_outside index k (l : list Todo) :
  index < k ∨ k + Z.of_nat (length l) ≤ index →
  map_from (g index) k l = l.
Proof.
  revert k. induction l as [|x r IH]; intros k Hout; simpl in *; [done|].
  rewrite g_other by lia. f_equal. apply IH. lia.
Qed.
End MapOutside.

Lemma flipAt_other index t i : i ≠ index → flipAt index t i = t.
Proof. intros H. unfold flipAt. by rewrite (proj2 (Z.eqb_neq _ _) H). Qed.

Lemma setText_other txt index t i : i ≠ index → setText txt index t i = t.
Proof. intros H. unfold setText. by rewrite (proj2 (Z.eqb_neq _ _) H). Qed.

Lemma State_eta st :
  {| todos := todos st; input := input st;
     validationMessage := validationMessage st;
     editingIndex := editingIndex st; editInput := editInput st |} = st.
Proof. by destruct st. Qed.

(** C7, as the code has it.  The component has no index check and no
    message for a stale index.  For an index that refers to no item
    (negative, or at least the length of the collection) [toggle] and
    [delete] leave the whole state as it was, so they show no error, and
    [edit] leaves the collection as it was; what [edit] shows is the
    outcome of validating the text, never [IndexOutOfRange]. *)
Theorem stale_index_ignored (st : State) (index : Z) (raw : jsstring) :
  index < 0 ∨ Z.of_nat (length (todos st)) ≤ index →
  Store.toggle index st = st
  ∧ Store.delete index st = st
  ∧ todos (Store.edit index raw st) = todos st
  ∧ validationMessage (Store.edit index raw st)
    = message (validateAndFormatText st raw index)
  ∧ reported (Store.edit index raw st) ≠ Some IndexOutOfRange.
Proof.
  intros Hout. repeat split.
  - rewrite toggle_state. unfold Array_map.
    rewrite (map_from_outside flipAt flipAt_other) by lia. apply State_eta.
  - pose proof (delete_todos_outside index st Hout) as Hd.
    unfold Store.delete, removeTodo in *. simpl in Hd. rewrite Hd.
    apply State_eta.
  - destruct (edit_todos index raw st) as [->|(_ & _ & _ & ->)]; [done|].
    unfold Array_map.
    apply (map_from_outside (setText (capitalized (trim raw)))); [|lia].
    apply setText_other.
  - apply edit_message.
  - apply errorOf_not_index.
Qed.

Lemma stale_index_ignored_witness :
  Store.toggle 1 oneItem = oneItem
  ∧ Store.delete 1 oneItem = oneItem
  ∧ todos (Store.edit 1 (js "other") oneItem) = todos oneItem
  ∧ validationMessage (Store.edit 1 (js "other") oneItem)
    = message (validateAndFormatText oneItem (js "other") 1)
  ∧ reported (Store.edit 1 (js "other") oneItem) ≠ Some IndexOutOfRange.
Proof.
  apply (stale_index_ignored oneItem 1 (js "other")).
  right. vm_compute. discriminate.
Defined.

(** With one item in the collection, neither index [1] nor index [-1]
    refers to an item, and no operation shows an error for them: [toggle]
    and [delete] show nothing and [edit] goes through. *)
Lemma stale_index_no_error :
  length (todos oneItem) = 1%nat
  ∧ reported (Store.toggle 1 oneItem) ≠ Some IndexOutOfRange
  ∧ reported (Store.delete (-1) oneItem) ≠ Some IndexOutOfRange
  ∧ reported (Store.edit 1 (js "other") oneItem) ≠ Some IndexOutOfRange
  ∧ validationMessage (Store.toggle 1 oneItem) = msgNone
  ∧ validationMessage (Store.delete (-1) oneItem) = msgNone
  ∧ validationMessage (Store.edit 1 (js "other") oneItem) = msgNone.
Proof. repeat split; by vm_compute. Qed.

(** * Toggling *)

Lemma flipAt_twice index t i : flipAt index (flipAt index t i) i = t.
Proof.
  unfold flipAt. destruct (i =? index); [|done].
  destruct t as [txt c]. simpl. by rewrite negb_involutive.
Qed.

Lemma toggle_twice index st :
  Store.toggle index (Store.toggle index st) = st.
Proof.
  rewrite !toggle_state. simpl. rewrite <- (State_eta st) at 6. f_equal.
  apply list_eq. intros n. rewrite !Array_map_lookup.
  destruct (todos st !! n) as [t|]; simpl; [|done].
  by rewrite flipAt_twice.
Qed.

(** C8.  For a valid index [index], holding the item [it], [toggle] has
    no failure path: it shows no message (the message cell is left as it
    was) and the flag of the item at [index] is negated while its text is
    kept; every other position and the length of the collection are left
    as they were; and toggling twice gives back the flag of [it], and with
    it the whole state. *)
Theorem toggle_valid_index (st : State) (index : Z) (it : Todo) :
  0 ≤ index → todos st !! Z.to_nat index = Some it →
  validationMessage (Store.toggle index st) = validationMessage st
  ∧ todos (Store.toggle index st) !! Z.to_nat index
    = Some {| text := text it; completed := negb (completed it) |}
  ∧ (∀ j, j ≠ Z.to_nat index →
          todos (Store.toggle index st) !! j = todos st !! j)
  ∧ length (todos (Store.toggle index st)) = length (todos st)
  ∧ todos (Store.toggle index (Store.toggle index st)) !! Z.to_nat index
    = Some it
  ∧ Store.toggle index (Store.toggle index st) = st.
Proof.
  intros H0 Hit. split; [done|]. split; [|split; [|split; [|split]]].
  - rewrite toggle_todos, Array_map_lookup, Hit. simpl.
    unfold flipAt. by rewrite Z2Nat.id, Z.eqb_refl.
  - intros j Hj. rewrite toggle_todos, Array_map_lookup.
    destruct (todos st !! j) as [t|]; simpl; [|done].
    rewrite flipAt_other; [done|lia].
  - rewrite toggle_todos. apply Array_map_length.
  - by rewrite toggle_twice.
  - apply toggle_twice.
Qed.

Lemma toggle_valid_index_witness :
  todos (Store.toggle 0 oneItem) !! 0%nat
  = Some {| text := js "Task"; completed := true |}
  ∧ Store.toggle 0 (Store.toggle 0 oneItem) = oneItem.
Proof.
  pose proof (toggle_valid_index oneItem 0
                {| text := js "Task"; completed := false |}) as H.
  destruct H as (_ & Hflip & _ & _ & _ & Htwice); [lia|by vm_compute|].
  split; [exact Hflip|exact Htwice].
Defined.

(** * Deleting, and the two sections *)

Lemma filter_sublist {A} (p : A → bool) (l : list A) :
  List.filter p l `sublist_of` l.
Proof.
  induction l as [|x r IH]; simpl; [constructor|].
  destruct (p x); by constructor.
Qed.

Lemma filter_split {A} (p : A → bool) (l : list A) :
  List.filter (λ x, negb (p x)) l ++ List.filter p l ≡ₚ l.
Proof.
  induction l as [|x r IH]; simpl; [done|].
  destruct (p x); simpl.
  - rewrite <- Permutation_middle. by constructor.
  - by constructor.
Qed.

Lemma filter_Forall {A} (p : A → bool) (l : list A) :
  Forall (λ x, p x = true) (List.filter p l).
Proof.
  induction l as [|x r IH]; simpl; [constructor|].
  destruct (p x) eqn:E; [by constructor|done].
Qed.

(** C9.  For a valid index, [delete] removes the item at that position
    and nothing else: the collection is the items before it followed by
    the items after it, it is one shorter, positions below the index keep
    their item and every later item moves down by one.  In every state
    the active and the completed items together are a rearrangement of the
    collection (nothing left out, nothing twice), the active ones being
    exactly those not completed; each view keeps the order of the
    collection.  The views are functions of the state and return a list:
    they have no state to change. *)
Theorem delete_and_sections (st : State) (index : Z) :
  (0 ≤ index < Z.of_nat (length (todos st)) →
     todos (Store.delete index st)
     = take (Z.to_nat index) (todos st) ++ drop (S (Z.to_nat index)) (todos st)
     ∧ S (length (todos (Store.delete index st))) = length (todos st)
     ∧ (∀ j, (j < Z.to_nat index)%nat →
             todos (Store.delete index st) !! j = todos st !! j)
     ∧ (∀ j, (Z.to_nat index ≤ j)%nat →
             todos (Store.delete index st) !! j = todos st !! S j))
  ∧ (Store.activeItems st ++ Store.completedItems st ≡ₚ todos st
     ∧ Forall (λ t, completed t = false) (Store.activeItems st)
     ∧ Forall (λ t, completed t = true) (Store.completedItems st)
     ∧ Store.activeItems st `sublist_of` todos st
     ∧ Store.completedItems st `sublist_of` todos st).
Proof.
  split.
  - intros Hin. rewrite delete_todos_inside by done.
    split; [apply delete_take_drop|]. split; [|split].
    + rewrite length_delete.
      * lia.
      * apply lookup_lt_is_Some. lia.
    + intros j Hj. by apply list_lookup_delete_lt.
    + intros j Hj. by apply list_lookup_delete_ge.
  - unfold Store.activeItems, Store.completedItems,
      getIncompleteTodos, getCompletedTodos.
    split; [apply (filter_split completed)|]. split; [|split; [|split]].
    + eapply Forall_impl; [apply filter_Forall|].
      simpl. intros t Ht. by apply negb_true_iff.
    + apply (filter_Forall completed).
    + apply filter_sublist.
    + apply filter_sublist.
Qed.

Lemma delete_and_sections_witness :
  todos (Store.delete 0 twoItems)
  = [ {| text := js "Second todo"; completed := true |} ].
Proof.
  refine (proj1 (proj1 (delete_and_sections twoItems 0) _)).
  vm_compute. split; [discriminate|reflexivity].
Defined.

(** * What the operations leave alone *)

(** C10.  [toggle] and an [edit] that goes through keep the length of the
    collection and every item at a position other than the index, text and
    flag; an [add] that goes through keeps every item that was there at its
    position and puts one item behind them.  This holds for every index,
    so for every valid one. *)
Theorem frame (st : State) (index : Z) (raw : jsstring) :
  (length (todos (Store.toggle index st)) = length (todos st)
   ∧ ∀ j, Z.of_nat j ≠ index →
          todos (Store.toggle index st) !! j = todos st !! j)
  ∧ (validationMessage (Store.edit index raw st) = msgNone →
     length (todos (Store.edit index raw st)) = length (todos st)
     ∧ ∀ j, Z.of_nat j ≠ index →
            todos (Store.edit index raw st) !! j = todos st !! j)
  ∧ (validationMessage (Store.add raw st) = msgNone →
     (∀ j t, todos st !! j = Some t → todos (Store.add raw st) !! j = Some t)
     ∧ ∃ new, todos (Store.add raw st) = todos st ++ [new]).
Proof.
  split; [|split].
  - rewrite toggle_todos. split; [apply Array_map_length|].
    intros j Hj. rewrite Array_map_lookup.
    destruct (todos st !! j) as [t|]; simpl; [|done].
    by rewrite flipAt_other.
  - intros _.
    destruct (edit_todos index raw st) as [->|(_ & _ & _ & ->)]; [done|].
    split; [apply Array_map_length|].
    intros j Hj. rewrite Array_map_lookup.
    destruct (todos st !! j) as [t|]; simpl; [|done].
    by rewrite setText_other.
  - intros Hok.
    destruct (decide (trim raw = [])) as [He|He].
    { by rewrite add_when_empty in Hok. }
    destruct (regex_test notAlnumSpace (trim raw)) eqn:Hr.
    { by rewrite add_when_invalid in Hok. }
    destruct (isDuplicate st (capitalized (trim raw)) (-1)) eqn:Hd.
    { by rewrite add_when_duplicate in Hok. }
    rewrite add_when_fresh by done. simpl. split; [|by eexists].
    intros j t Hj. rewrite lookup_app_l; [done|]. by eapply lookup_lt_Some.
Qed.

Lemma frame_witness :
  length (todos (Store.edit 0 (js "coffee") twoItems)) = length (todos twoItems)
  ∧ ∀ j, Z.of_nat j ≠ 0 →
         todos (Store.edit 0 (js "coffee") twoItems) !! j = todos twoItems !! j.
Proof.
  refine (proj1 (proj2 (frame twoItems 0 (js "coffee"))) _).
  by vm_compute.
Defined.

(** * Further properties of the validation *)

(** ** Case conversion, unit by unit *)

Lemma isAsciiUpper_range c : isAsciiUpper c = true ↔ (65 ≤ c ≤ 90)%N.
Proof. unfold isAsciiUpper. rewrite andb_true_iff, !N.leb_le. done. Qed.

Lemma isAsciiLower_range c : isAsciiLower c = true ↔ (97 ≤ c ≤ 122)%N.
Proof. unfold isAsciiLower. rewrite andb_true_iff, !N.leb_le. done. Qed.

Lemma isWhiteSpace_printable c : (33 ≤ c ≤ 126)%N → isWhiteSpace c = false.
Proof.
  intros Hc. apply not_true_iff_false. unfold isWhiteSpace.
  rewrite !orb_true_iff, !andb_true_iff, !N.leb_le, !N.eqb_eq. lia.
Qed.

Lemma toLowerUnit_space c : isWhiteSpace (toLowerUnit c) = isWhiteSpace c.
Proof.
  unfold toLowerUnit. destruct (isAsciiUpper c) eqn:E; [|done].
  apply isAsciiUpper_range in E.
  rewrite !isWhiteSpace_printable; [done|lia|lia].
Qed.

Lemma toUpperUnit_space c : isWhiteSpace (toUpperUnit c) = isWhiteSpace c.
Proof.
  unfold toUpperUnit. destruct (isAsciiLower c) eqn:E; [|done].
  apply isAsciiLower_range in E.
  rewrite !isWhiteSpace_printable; [done|lia|lia].
Qed.

Lemma toLowerUnit_idemp c : toLowerUnit (toLowerUnit c) = toLowerUnit c.
Proof.
  unfold toLowerUnit. destruct (isAsciiUpper c) eqn:E; [|by rewrite E].
  apply isAsciiUpper_range in E.
  destruct (isAsciiUpper (c + 32)) eqn:E'; [|done].
  apply isAsciiUpper_range in E'. lia.
Qed.

Lemma toUpperUnit_idemp c : toUpperUnit (toUpperUnit c) = toUpperUnit c.
Proof.
  unfold toUpperUnit. destruct (isAsciiLower c) eqn:E; [|by rewrite E].
  apply isAsciiLower_range in E.
  destruct (isAsciiLower (c - 32)) eqn:E'; [|done].
  apply isAsciiLower_range in E'. lia.
Qed.

Lemma toLowerUnit_upper c : toLowerUnit (toUpperUnit c) = toLowerUnit c.
Proof.
  unfold toLowerUnit, toUpperUnit. destruct (isAsciiLower c) eqn:E.
  - apply isAsciiLower_range in E.
    replace (isAsciiUpper (c - 32)) with true
      by (symmetry; apply isAsciiUpper_range; lia).
    replace (isAsciiUpper c) with false
      by (symmetry; apply not_true_iff_false; rewrite isAsciiUpper_range; lia).
    lia.
  - done.
Qed.

Lemma toLowerCase_idemp t : toLowerCase (toLowerCase t) = toLowerCase t.
Proof.
  unfold toLowerCase. rewrite <- list_fmap_compose.
  apply list_fmap_ext. intros _ c _. apply toLowerUnit_idemp.
Qed.

(** Lower-casing the stored form is lower-casing the text itself: the
    capital put in front is undone. *)
Lemma toLowerCase_capitalized t : toLowerCase (capitalized t) = toLowerCase t.
Proof.
  destruct t as [|c r]; [done|].
  unfold capitalized, charAt, slice, toLowerCase, toUpperCase. simpl.
  rewrite drop_0, toLowerUnit_upper. f_equal.
  rewrite <- list_fmap_compose. apply list_fmap_ext.
  intros _ d _. apply toLowerUnit_idemp.
Qed.

Lemma capitalized_idemp t : capitalized (capitalized t) = capitalized t.
Proof.
  destruct t as [|c r]; [done|].
  unfold capitalized, charAt, slice, toLowerCase, toUpperCase. simpl.
  rewrite !drop_0, toUpperUnit_idemp. f_equal.
  rewrite <- list_fmap_compose. apply list_fmap_ext.
  intros _ d _. apply toLowerUnit_idemp.
Qed.

(** ** Trimming *)

Lemma rev_is_reverse {A} (l : list A) : rev l = reverse l.
Proof. apply rev_alt. Qed.

Lemma trimStart_suffix s : ∃ p, s = p ++ trimStart s.
Proof.
  induction s as [|c r [p Hp]]; simpl.
  - by exists [].
  - destruct (isWhiteSpace c).
    + exists (c :: p). simpl. by f_equal.
    + by exists [].
Qed.

Lemma trimStart_head s c : head (trimStart s) = Some c → isWhiteSpace c = false.
Proof.
  induction s as [|d r IH]; simpl; [done|].
  destruct (isWhiteSpace d) eqn:E; [done|].
  simpl. by intros [= <-].
Qed.

Lemma trimStart_fixed s :
  (∀ c, head s = Some c → isWhiteSpace c = false) → trimStart s = s.
Proof.
  destruct s as [|c r]; simpl; [done|].
  intros H. by rewrite (H c).
Qed.

Lemma trimStart_last s c :
  last (trimStart s) = Some c → last s = Some c.
Proof.
  destruct (trimStart_suffix s) as [p Hp]. intros Hl.
  rewrite Hp at 1. rewrite last_app. by rewrite Hl.
Qed.

Lemma trim_noEdgeSpace s : noEdgeSpace (trim s).
Proof.
  unfold trim, trimEnd. rewrite !rev_is_reverse. split; intros c Hc.
  - rewrite head_reverse in Hc. apply trimStart_last in Hc.
    rewrite last_reverse in Hc. by eapply trimStart_head.
  - rewrite last_reverse in Hc. by eapply trimStart_head.
Qed.

Lemma trim_fixed t : noEdgeSpace t → trim t = t.
Proof.
  intros [Hh Hl]. unfold trim, trimEnd.
  rewrite (trimStart_fixed t) by done.
  rewrite trimStart_fixed.
  - apply rev_involutive.
  - intros c. rewrite rev_is_reverse, head_reverse. apply Hl.
Qed.

Lemma trim_idemp s : trim (trim s) = trim s.
Proof. apply trim_fixed, trim_noEdgeSpace. Qed.

Lemma capitalized_noEdgeSpace t : noEdgeSpace t → noEdgeSpace (capitalized t).
Proof.
  intros [Hh Hl]. destruct t as [|c r]; [done|].
  unfold capitalized, charAt, slice, toUpperCase, toLowerCase. simpl.
  rewrite drop_0. split; intros d; simpl.
  - intros [= <-]. rewrite toUpperUnit_space. by apply Hh.
  - rewrite last_cons, fmap_last. rewrite last_cons in Hl.
    destruct (last r) as [e|]; simpl.
    + intros [= <-]. rewrite toLowerUnit_space. by apply Hl.
    + intros [= <-]. rewrite toUpperUnit_space. by apply Hl.
Qed.

Lemma storedForm_capitalized_trim raw : storedForm (capitalized (trim raw)).
Proof.
  split.
  - apply trim_fixed, capitalized_noEdgeSpace, trim_noEdgeSpace.
  - apply capitalized_idemp.
Qed.

(** ** The validation looks at the trimmed text in lower case only *)

Lemma isAsciiAlnum_lower c : isAsciiAlnum (toLowerUnit c) = isAsciiAlnum c.
Proof.
  unfold toLowerUnit. destruct (isAsciiUpper c) eqn:E; [|done].
  unfold isAsciiAlnum. rewrite E. apply isAsciiUpper_range in E.
  replace (isAsciiLower (c + 32)) with true
    by (symmetry; apply isAsciiLower_range; lia).
  by rewrite orb_true_r.
Qed.

Lemma notAlnumSpace_lower c : notAlnumSpace (toLowerUnit c) = notAlnumSpace c.
Proof.
  unfold notAlnumSpace. by rewrite isAsciiAlnum_lower, toLowerUnit_space.
Qed.

Lemma regex_test_lower t :
  regex_test notAlnumSpace (toLowerCase t) = regex_test notAlnumSpace t.
Proof.
  unfold regex_test, toLowerCase. induction t as [|c r IH]; [done|].
  rewrite fmap_cons. cbn [existsb]. by rewrite notAlnumSpace_lower, IH.
Qed.

Lemma toUpperUnit_lower c : toUpperUnit (toLowerUnit c) = toUpperUnit c.
Proof.
  unfold toLowerUnit, toUpperUnit. destruct (isAsciiUpper c) eqn:E; [|done].
  apply isAsciiUpper_range in E.
  replace (isAsciiLower (c + 32)) with true
    by (symmetry; apply isAsciiLower_range; lia).
  replace (isAsciiLower c) with false
    by (symmetry; apply not_true_iff_false; rewrite isAsciiLower_range; lia).
  lia.
Qed.

Lemma capitalized_lower t : capitalized (toLowerCase t) = capitalized t.
Proof.
  destruct t as [|c r]; [done|].
  unfold capitalized, charAt, slice, toLowerCase, toUpperCase. simpl.
  rewrite !drop_0, toUpperUnit_lower. f_equal.
  rewrite <- list_fmap_compose. apply list_fmap_ext.
  intros _ d _. apply toLowerUnit_idemp.
Qed.

Lemma toLowerCase_noEdgeSpace t : noEdgeSpace t → noEdgeSpace (toLowerCase t).
Proof.
  intros [Hh Hl]. unfold toLowerCase. split; intros c.
  - destruct t as [|d r]; simpl; [done|].
    intros [= <-]. rewrite toLowerUnit_space. by apply Hh.
  - rewrite fmap_last. destruct (last t) as [d|]; simpl; [|done].
    intros [= <-]. rewrite toLowerUnit_space. by apply Hl.
Qed.

Lemma toLowerCase_nil t : toLowerCase t = [] ↔ t = [].
Proof. unfold toLowerCase. by destruct t. Qed.

Lemma validate_via_lower st raw ex :
  validateAndFormatText st raw ex
  = validateAndFormatText st (toLowerCase (trim raw)) ex.
Proof.
  assert (trim (toLowerCase (trim raw)) = toLowerCase (trim raw)) as Ht
    by apply trim_fixed, toLowerCase_noEdgeSpace, trim_noEdgeSpace.
  destruct (decide (trim raw = [])) as [He|He].
  { rewrite !validate_empty; [done| |done]. rewrite Ht. by apply toLowerCase_nil. }
  assert (trim (toLowerCase (trim raw)) ≠ []) as He'.
  { rewrite Ht. by rewrite toLowerCase_nil. }
  destruct (regex_test notAlnumSpace (trim raw)) eqn:Hr.
  { rewrite !validate_invalid; try done. by rewrite Ht, regex_test_lower. }
  rewrite !validate_accepted; try done.
  - by rewrite Ht, capitalized_lower.
  - by rewrite Ht, regex_test_lower.
Qed.

(** X1.  On texts of the validated class [validateAndFormatText] is
    blind to case and idempotent.  Two inputs whose trimmed texts are made
    of letters, digits and white space and are equal in lower case get the
    same result object (same verdict, same formatted text, same message),
    and feeding the formatted text of such an input back in gives the
    result of the input itself. *)
Theorem validate_case_blind (st : State) (raw raw' : jsstring) (ex : Z) :
  Forall allowedUnit (trim raw) →
  Forall allowedUnit (trim raw') →
  (toLowerCase (trim raw) = toLowerCase (trim raw') →
   validateAndFormatText st raw ex = validateAndFormatText st raw' ex)
  ∧ validateAndFormatText st (capitalized (trim raw)) ex
    = validateAndFormatText st raw ex.
Proof.
  intros _ _. split.
  - intros H. rewrite (validate_via_lower st raw), (validate_via_lower st raw').
    by rewrite H.
  - rewrite (validate_via_lower st (capitalized (trim raw))),
      (validate_via_lower st raw).
    destruct (storedForm_capitalized_trim raw) as [-> _].
    by rewrite toLowerCase_capitalized.
Qed.

Lemma validate_case_blind_witness :
  validateAndFormatText oneItem (js "  bUY mILK") (-1)
  = validateAndFormatText oneItem (js "Buy Milk  ") (-1).
Proof.
  refine (proj1 (validate_case_blind oneItem (js "  bUY mILK")
                   (js "Buy Milk  ") (-1) _ _) _).
  - vm_compute. repeat constructor.
  - vm_compute. repeat constructor.
  - by vm_compute.
Defined.

(** X2.  The result object is coherent: it is valid exactly when its
    message is empty; a valid result carries the non-empty stored form of
    the trimmed text, which is made of letters, digits and white space and
    has no white space at either end; an invalid one carries the empty
    text and one of the three messages. *)
Theorem validate_result_shape (st : State) (txt : jsstring) (ex : Z) :
  let r := validateAndFormatText st txt ex in
  (isValid r = true ↔ message r = msgNone)
  ∧ (isValid r = true →
     formattedText r = capitalized (trim txt) ∧ formattedText r ≠ []
     ∧ Forall allowedUnit (formattedText r)
     ∧ trim (formattedText r) = formattedText r)
  ∧ (isValid r = false →
     formattedText r = []
     ∧ (message r = msgEmpty ∨ message r = msgInvalid
        ∨ message r = msgDuplicate)).
Proof.
  simpl.
  destruct (decide (trim txt = [])) as [He|He].
  { rewrite validate_empty by done. simpl. repeat split; try done; auto. }
  destruct (regex_test notAlnumSpace (trim txt)) eqn:Hr.
  { rewrite validate_invalid by done. simpl. repeat split; try done; auto. }
  rewrite validate_accepted by done.
  destruct (isDuplicate st (capitalized (trim txt)) ex); simpl.
  { repeat split; try done; auto. }
  repeat split; try done.
  - by apply capitalized_nonempty.
  - by apply capitalized_allowed, regex_test_false.
  - apply storedForm_capitalized_trim.
Qed.

Lemma validate_result_shape_witness :
  formattedText (validateAndFormatText initial (js " wash CAR ") (-1))
  = capitalized (trim (js " wash CAR ")).
Proof.
  refine (proj1 (proj1 (proj2 (validate_result_shape initial (js " wash CAR ") (-1))) _)).
  by vm_compute.
Defined.

(** ** Duplicates *)

(** X3.  [isDuplicate] with an [excludeIndex] that is no position of the
    collection (negative, or at least its length) excludes nothing: it
    answers as with the default [-1]. *)
Theorem isDuplicate_stale_exclude (st : State) (txt : jsstring) (ex : Z) :
  ex < 0 ∨ Z.of_nat (length (todos st)) ≤ ex →
  isDuplicate st txt ex = isDuplicate st txt (-1).
Proof.
  intros Hout.
  destruct (isDuplicate st txt (-1)) eqn:Hd.
  - apply isDuplicate_true in Hd as (n & t & Hn & _ & Heq).
    apply isDuplicate_true. exists n, t. repeat split; [done| |done].
    apply lookup_lt_Some in Hn. lia.
  - apply isDuplicate_false. intros n t Hn _.
    eapply isDuplicate_false; [exact Hd|exact Hn|lia].
Qed.

Lemma isDuplicate_stale_exclude_witness :
  isDuplicate oneItem (js "TASK") 7 = isDuplicate oneItem (js "TASK") (-1).
Proof.
  apply (isDuplicate_stale_exclude oneItem (js "TASK") 7).
  right. vm_compute. discriminate.
Defined.

(** X4.  For an input that passes the character checks, [add] is refused
    as a duplicate exactly when some item has, in lower case, the text of
    the trimmed input in lower case: the capital the formatting puts in
    front plays no part. *)
Theorem add_duplicate_iff (st : State) (raw : jsstring) :
  normalizes raw →
  (reported (Store.add raw st) = Some DuplicateItem
   ↔ ∃ t, t ∈ todos st ∧ toLowerCase (text t) = toLowerCase (trim raw)).
Proof.
  intros Hn.
  destruct (isDuplicate st (capitalized (trim raw)) (-1)) eqn:Hd.
  - rewrite add_when_duplicate by done. split; [intros _|done].
    apply isDuplicate_true in Hd as (n & t & Hl & _ & Heq).
    exists t. split; [by eapply list_elem_of_lookup_2|].
    by rewrite Heq, toLowerCase_capitalized.
  - rewrite add_when_fresh by done. split; [done|].
    intros (t & [n Hl]%list_elem_of_lookup_1 & Heq). exfalso.
    eapply isDuplicate_false; [exact Hd|exact Hl|lia|].
    by rewrite toLowerCase_capitalized.
Qed.

Lemma add_duplicate_iff_witness :
  reported (Store.add (js " tASk") oneItem) = Some DuplicateItem.
Proof.
  refine (proj2 (add_duplicate_iff oneItem (js " tASk") _) _).
  - split; by vm_compute.
  - exists {| text := js "Task"; completed := false |}. split; [|by vm_compute].
    vm_compute. apply list_elem_of_here.
Defined.

(** X5.  Adding twice never adds twice.  After [add raw] of an input that
    passes the character checks, whether it went through or not, an
    [add raw'] of any input that passes them too and has the same trimmed
    text in lower case is refused as a duplicate and leaves the collection
    as the first [add] left it. *)
Theorem add_again_refused (st : State) (raw raw' : jsstring) :
  normalizes raw →
  normalizes raw' →
  toLowerCase (trim raw') = toLowerCase (trim raw) →
  reported (Store.add raw' (Store.add raw st)) = Some DuplicateItem
  ∧ todos (Store.add raw' (Store.add raw st)) = todos (Store.add raw st).
Proof.
  intros Hn Hn' Heq.
  assert (isDuplicate (Store.add raw st) (capitalized (trim raw')) (-1) = true)
    as Hd.
  { apply isDuplicate_true.
    destruct (isDuplicate st (capitalized (trim raw)) (-1)) eqn:Hd.
    - rewrite add_when_duplicate by done. simpl.
      apply isDuplicate_true in Hd as (n & t & Hl & Hne & Ht).
      exists n, t. repeat split; [done|done|].
      by rewrite Ht, !toLowerCase_capitalized.
    - rewrite add_when_fresh by done. simpl.
      exists (length (todos st)),
        {| text := capitalized (trim raw); completed := false |}.
      repeat split; [|lia|].
      + by rewrite list_lookup_middle.
      + simpl. by rewrite !toLowerCase_capitalized. }
  by rewrite (add_when_duplicate raw').
Qed.

Lemma add_again_refused_witness :
  reported (Store.add (js "MILK ") (Store.add (js "milk") twoItems))
  = Some DuplicateItem.
Proof.
  refine (proj1 (add_again_refused twoItems (js "milk") (js "MILK ") _ _ _)).
  - split; by vm_compute.
  - split; by vm_compute.
  - by vm_compute.
Defined.

(** * Further properties of the handlers *)

(** ** The cells a handler leaves alone *)

Lemma msgEmpty_not_none : msgEmpty ≠ msgNone.
Proof. done. Qed.

Lemma msgInvalid_not_none : msgInvalid ≠ msgNone.
Proof. done. Qed.

(** X6.  [add] never touches the two editing cells.  When it shows a
    message, the typed text stays in the field and the collection is as it
    was; when it shows none, the field is cleared and the collection is one
    item longer. *)
Theorem add_cells (st : State) (raw : jsstring) :
  editingIndex (Store.add raw st) = editingIndex st
  ∧ editInput (Store.add raw st) = editInput st
  ∧ (validationMessage (Store.add raw st) ≠ msgNone →
     input (Store.add raw st) = raw ∧ todos (Store.add raw st) = todos st)
  ∧ (validationMessage (Store.add raw st) = msgNone →
     input (Store.add raw st) = []
     ∧ length (todos (Store.add raw st)) = S (length (todos st))).
Proof.
  destruct (decide (trim raw = [])) as [He|He].
  { by rewrite add_when_empty. }
  destruct (regex_test notAlnumSpace (trim raw)) eqn:Hr.
  { by rewrite add_when_invalid. }
  destruct (isDuplicate st (capitalized (trim raw)) (-1)) eqn:Hd.
  { by rewrite add_when_duplicate. }
  rewrite add_when_fresh by done. simpl.
  repeat split; try done. rewrite length_app. simpl. lia.
Qed.

Lemma add_cells_witness :
  input (Store.add (js "no way!") oneItem) = js "no way!"
  ∧ todos (Store.add (js "no way!") oneItem) = todos oneItem.
Proof.
  refine (proj1 (proj2 (proj2 (add_cells oneItem (js "no way!")))) _).
  by vm_compute.
Defined.

(** X7.  [edit] never touches the field of the add form.  When it shows a
    message, the item stays in edit mode ([editingIndex] is as it was) and
    the collection is as it was; when it shows none, edit mode is left
    ([editingIndex] is [-1]) and the collection has its old length. *)
Theorem edit_cells (st : State) (index : Z) (raw : jsstring) :
  input (Store.edit index raw st) = input st
  ∧ editInput (Store.edit index raw st) = raw
  ∧ (validationMessage (Store.edit index raw st) ≠ msgNone →
     editingIndex (Store.edit index raw st) = editingIndex st
     ∧ todos (Store.edit index raw st) = todos st)
  ∧ (validationMessage (Store.edit index raw st) = msgNone →
     editingIndex (Store.edit index raw st) = -1
     ∧ length (todos (Store.edit index raw st)) = length (todos st)).
Proof.
  destruct (decide (trim raw = [])) as [He|He].
  { by rewrite edit_when_empty. }
  destruct (regex_test notAlnumSpace (trim raw)) eqn:Hr.
  { by rewrite edit_when_invalid. }
  destruct (isDuplicate st (capitalized (trim raw)) index) eqn:Hd.
  { by rewrite edit_when_duplicate. }
  rewrite edit_when_fresh by done. simpl.
  repeat split; try done. apply Array_map_length.
Qed.

Lemma edit_cells_witness :
  editingIndex (Store.edit 1 (js "first TODO") twoItems) = editingIndex twoItems
  ∧ todos (Store.edit 1 (js "first TODO") twoItems) = todos twoItems.
Proof.
  refine (proj1 (proj2 (proj2 (edit_cells twoItems 1 (js "first TODO")))) _).
  by vm_compute.
Defined.

(** X8.  [edit] never changes a [completed] flag and [toggle] never changes
    a text, at any position and for any index. *)
Theorem edit_flags_toggle_texts (st : State) (index : Z) (raw : jsstring) :
  completed <$> todos (Store.edit index raw st) = completed <$> todos st
  ∧ text <$> todos (Store.toggle index st) = text <$> todos st.
Proof.
  split.
  - destruct (edit_todos index raw st) as [->|(_ & _ & _ & ->)]; [done|].
    apply list_eq. intros n. rewrite !list_lookup_fmap, Array_map_lookup.
    destruct (todos st !! n) as [t|]; simpl; [|done].
    unfold setText. by destruct (Z.of_nat n =? index).
  - rewrite toggle_todos.
    apply list_eq. intros n. rewrite !list_lookup_fmap, Array_map_lookup.
    destruct (todos st !! n) as [t|]; simpl; [|done].
    unfold flipAt. by destruct (Z.of_nat n =? index).
Qed.

(** ** The stored form *)

Lemma run_storedForm o st :
  Forall (λ it, storedForm (text it)) (todos st) →
  Forall (λ it, storedForm (text it)) (todos (run o st)).
Proof.
  intros Hst. destruct o as [raw|index raw|index|index]; cbn [run].
  - destruct (add_todos raw st) as [->|(Hn & _ & _ & ->)]; [done|].
    apply Forall_app. split; [done|].
    constructor; [|done]. apply storedForm_capitalized_trim.
  - destruct (edit_todos index raw st) as [->|(Hn & _ & _ & ->)]; [done|].
    apply Forall_lookup_2. intros i x Hi.
    rewrite Array_map_lookup in Hi.
    destruct (todos st !! i) as [t|] eqn:Ei; [|done].
    simpl in Hi. injection Hi as <-. unfold setText.
    destruct (Z.of_nat i =? index).
    + apply storedForm_capitalized_trim.
    + by eapply (Forall_lookup_1 _ _ _ _ Hst).
  - rewrite toggle_todos. apply Forall_lookup_2. intros i x Hi.
    rewrite Array_map_lookup in Hi.
    destruct (todos st !! i) as [t|] eqn:Ei; [|done].
    simpl in Hi. injection Hi as <-.
    pose proof (Forall_lookup_1 _ _ _ _ Hst Ei) as Ht.
    unfold flipAt. by destruct (Z.of_nat i =? index).
  - destruct (decide (0 ≤ index < Z.of_nat (length (todos st)))) as [Hin|Hout].
    + rewrite delete_todos_inside by done. by apply Forall_delete.
    + rewrite delete_todos_outside by lia. done.
Qed.

Lemma reachable_invariants st :
  reachable st →
  Forall wellFormedText (todos st)
  ∧ Forall (λ it, storedForm (text it)) (todos st)
  ∧ distinctTexts (todos st).
Proof.
  induction 1 as [|st o _ (IH1 & IH2 & IH3)].
  - repeat split; [constructor|constructor|apply initial_distinctTexts].
  - repeat split.
    + by apply run_wellFormed.
    + by apply run_storedForm.
    + by apply run_distinctTexts.
Qed.

Lemma toUpperUnit_fixed c : toUpperUnit c = c → isAsciiLower c = false.
Proof.
  unfold toUpperUnit. destruct (isAsciiLower c) eqn:E; [|done].
  apply isAsciiLower_range in E. lia.
Qed.

Lemma toLowerUnit_fixed c : toLowerUnit c = c → isAsciiUpper c = false.
Proof.
  unfold toLowerUnit. destruct (isAsciiUpper c) eqn:E; [|done].
  apply isAsciiUpper_range in E. lia.
Qed.

(** X9.  In every reachable state every stored text is in stored form: it
    begins with a capital letter or a digit, holds no capital letter after
    that, neither begins nor ends with white space, and trimming or
    formatting it again changes nothing. *)
Theorem reachable_stored_form (st : State) :
  reachable st →
  Forall (λ it,
            (∃ c r, text it = c :: r
                    ∧ isAsciiUpper c || isAsciiDigit c = true
                    ∧ Forall (λ d, isAsciiUpper d = false) r)
            ∧ noEdgeSpace (text it)
            ∧ trim (text it) = text it
            ∧ capitalized (text it) = text it)
         (todos st).
Proof.
  intros (Hwf & Hsf & _)%reachable_invariants.
  apply Forall_lookup_2. intros i it Hi.
  destruct (Forall_lookup_1 _ _ _ _ Hwf Hi) as [Hne Hall].
  destruct (Forall_lookup_1 _ _ _ _ Hsf Hi) as [Htrim Hcap].
  assert (noEdgeSpace (text it)) as Hedge.
  { rewrite <- Htrim. apply trim_noEdgeSpace. }
  repeat split; try done; try apply Hedge.
  destruct (text it) as [|c r] eqn:Et; [done|]. exists c, r.
  unfold capitalized, charAt, slice, toUpperCase, toLowerCase in Hcap.
  simpl in Hcap. rewrite drop_0 in Hcap. injection Hcap as Hc Hr.
  split; [done|]. split.
  - apply toUpperUnit_fixed in Hc.
    apply Forall_cons in Hall as [Hac _]. unfold allowedUnit in Hac.
    destruct Hedge as [Hh _]. rewrite (Hh c) in Hac by done.
    unfold isAsciiAlnum in Hac. rewrite Hc in Hac.
    by rewrite orb_false_r in Hac.
  - apply Forall_lookup_2. intros j d Hj.
    apply toLowerUnit_fixed.
    apply (f_equal (λ l, l !! j)) in Hr.
    rewrite list_lookup_fmap, Hj in Hr. simpl in Hr. by injection Hr.
Qed.

Lemma reachable_stored_form_witness :
  Forall (λ it,
            (∃ c r, text it = c :: r
                    ∧ isAsciiUpper c || isAsciiDigit c = true
                    ∧ Forall (λ d, isAsciiUpper d = false) r)
            ∧ noEdgeSpace (text it)
            ∧ trim (text it) = text it
            ∧ capitalized (text it) = text it)
    (todos (run (OpEdit 0 (js " 2 EGGS ")) (run (OpAdd (js "milk")) initial))).
Proof.
  apply reachable_stored_form.
  apply reachable_step, reachable_step, reachable_initial.
Defined.

(** ** Opening an item for editing and saving it unchanged *)

Lemma setText_same (l : list Todo) index it :
  0 ≤ index → l !! Z.to_nat index = Some it →
  Array_map (setText (text it) index) l = l.
Proof.
  intros H0 Hit. apply list_eq. intros n. rewrite Array_map_lookup.
  destruct (l !! n) as [t|] eqn:En; simpl; [|done].
  unfold setText. destruct (Z.eqb_spec (Z.of_nat n) index) as [Hn|Hn]; [|done].
  replace (Z.to_nat index) with n in Hit by lia.
  rewrite En in Hit. injection Hit as <-. by destruct t.
Qed.

(** X10.  In a reachable state, [startEditing] on an item followed at once
    by [saveEdit] on it goes through and gives back the collection as it
    was: the text put in the edit field is accepted again, self-exclusion
    lets it pass the duplicate check, edit mode is left and no message is
    shown.  ([startEditing] returns a state exactly for the indices that
    are positions of the collection.) *)
Theorem startEditing_saveEdit (st st1 : State) (index : Z) :
  reachable st →
  startEditing index st = Some st1 →
  0 ≤ index < Z.of_nat (length (todos st))
  ∧ editingIndex st1 = index
  ∧ text <$> todos st !! Z.to_nat index = Some (editInput st1)
  ∧ todos (saveEdit index st1) = todos st
  ∧ validationMessage (saveEdit index st1) = msgNone
  ∧ editingIndex (saveEdit index st1) = -1.
Proof.
  intros (Hwf & Hsf & Hdist)%reachable_invariants Hstart.
  unfold startEditing in Hstart.
  destruct (Z.ltb_spec index 0) as [?|H0]; [done|].
  destruct (todos st !! Z.to_nat index) as [it|] eqn:Hit; [|done].
  injection Hstart as <-. simpl.
  pose proof (lookup_lt_Some _ _ _ Hit) as Hlt.
  split; [lia|]. split; [done|]. split; [done|].
  destruct (Forall_lookup_1 _ _ _ _ Hwf Hit) as [Hne Hall].
  destruct (Forall_lookup_1 _ _ _ _ Hsf Hit) as [Htrim Hcap].
  set (st2 := {| todos := todos st; input := input st;
                 validationMessage := validationMessage st;
                 editingIndex := index; editInput := editInput st |}).
  change (todos (Store.edit index (text it) st2) = todos st
          ∧ validationMessage (Store.edit index (text it) st2) = msgNone
          ∧ editingIndex (Store.edit index (text it) st2) = -1).
  assert (normalizes (text it)) as Hn.
  { split; rewrite Htrim; [done|]. by apply regex_test_false. }
  rewrite edit_when_fresh; [|done|].
  - simpl. rewrite Htrim, Hcap. by rewrite setText_same.
  - apply isDuplicate_false. simpl. intros n t Hl Hne'.
    rewrite Htrim, Hcap. eapply Hdist; [exact Hl|exact Hit|lia].
Qed.

Lemma startEditing_saveEdit_witness :
  todos (saveEdit 0
           {| todos := todos twoItems; input := input twoItems;
              validationMessage := msgNone;
              editingIndex := 0; editInput := js "First todo" |})
  = todos twoItems.
Proof.
  refine (proj1 (proj2 (proj2 (proj2
            (startEditing_saveEdit twoItems _ 0 _ _))))).
  - apply (reachable_step _ (OpToggle 1)), (reachable_step _ (OpAdd _)),
      (reachable_step _ (OpAdd _)), reachable_initial.
  - by vm_compute.
Defined.

(** ** The two sections *)

Lemma filter_middle {A} (p : A → bool) (l : list A) n x :
  l !! n = Some x →
  List.filter p l
  = List.filter p (take n l) ++ (if p x then [x] else [])
    ++ List.filter p (drop (S n) l).
Proof.
  intros H. rewrite <- (take_drop_middle l n x H) at 1.
  rewrite List.filter_app. simpl. by destruct (p x).
Qed.

Lemma toggle_todos_at st index it :
  0 ≤ index → todos st !! Z.to_nat index = Some it →
  todos (Store.toggle index st)
  = take (Z.to_nat index) (todos st) ++ flipped it
    :: drop (S (Z.to_nat index)) (todos st).
Proof.
  intros H0 Hit. pose proof (lookup_lt_Some _ _ _ Hit) as Hlt.
  rewrite <- insert_take_drop by done.
  apply list_eq. intros j.
  rewrite toggle_todos, Array_map_lookup, list_lookup_insert.
  case_decide as Hj.
  - destruct Hj as [<- _]. rewrite Hit. simpl.
    unfold flipAt. by rewrite Z2Nat.id, Z.eqb_refl.
  - destruct (todos st !! j) as [t|] eqn:Ej; simpl; [|done].
    rewrite flipAt_other; [done|]. intros Heq. apply Hj. split; [lia|done].
Qed.

(** X11.  Toggling moves one item between the sections and nothing else.
    For an active item at a valid index, with [before] and [after] the
    items in front of it and behind it: the active section loses exactly
    that item and the completed section gains it, completed, between the
    completed items of [before] and those of [after]. *)
Theorem toggle_moves_item (st : State) (index : Z) (it : Todo) :
  0 ≤ index → todos st !! Z.to_nat index = Some it → completed it = false →
  let before := take (Z.to_nat index) (todos st) in
  let after := drop (S (Z.to_nat index)) (todos st) in
  let active := List.filter (λ todo, negb (completed todo)) in
  let done_ := List.filter (λ todo, completed todo) in
  Store.activeItems st = active before ++ it :: active after
  ∧ Store.activeItems (Store.toggle index st) = active before ++ active after
  ∧ Store.completedItems st = done_ before ++ done_ after
  ∧ Store.completedItems (Store.toggle index st)
    = done_ before ++ flipped it :: done_ after.
Proof.
  intros H0 Hit Hc. simpl.
  unfold Store.activeItems, Store.completedItems,
    getIncompleteTodos, getCompletedTodos.
  rewrite (toggle_todos_at st index it) by done.
  rewrite !(filter_middle _ (todos st) _ it Hit), !List.filter_app.
  simpl. by rewrite Hc.
Qed.

Lemma toggle_moves_item_witness :
  Store.activeItems (Store.toggle 0 twoItems) = []
  ∧ Store.completedItems (Store.toggle 0 twoItems)
    = [ {| text := js "First todo"; completed := true |};
        {| text := js "Second todo"; completed := true |} ].
Proof.
  pose proof (toggle_moves_item twoItems 0
                {| text := js "First todo"; completed := false |}) as H.
  destruct H as (_ & Ha & _ & Hd); [lia|by vm_compute|done|].
  split; [exact Ha|exact Hd].
Defined.

(** X12.  [add] never changes the completed section; an [add] that goes
    through puts the new item at the end of the active section, and one
    that is refused leaves the active section as it was. *)
Theorem add_sections (st : State) (raw : jsstring) :
  Store.completedItems (Store.add raw st) = Store.completedItems st
  ∧ (validationMessage (Store.add raw st) = msgNone →
     Store.activeItems (Store.add raw st)
     = Store.activeItems st
       ++ [ {| text := capitalized (trim raw); completed := false |} ])
  ∧ (validationMessage (Store.add raw st) ≠ msgNone →
     Store.activeItems (Store.add raw st) = Store.activeItems st).
Proof.
  unfold Store.activeItems, Store.completedItems,
    getIncompleteTodos, getCompletedTodos.
  destruct (decide (trim raw = [])) as [He|He].
  { by rewrite add_when_empty. }
  destruct (regex_test notAlnumSpace (trim raw)) eqn:Hr.
  { by rewrite add_when_invalid. }
  destruct (isDuplicate st (capitalized (trim raw)) (-1)) eqn:Hd.
  { by rewrite add_when_duplicate. }
  rewrite add_when_fresh by done. simpl.
  rewrite !List.filter_app. simpl. rewrite app_nil_r. done.
Qed.

Lemma add_sections_witness :
  Store.activeItems (Store.add (js "third todo") twoItems)
  = Store.activeItems twoItems
    ++ [ {| text := capitalized (trim (js "third todo")); completed := false |} ].
Proof.
  refine (proj1 (proj2 (add_sections twoItems (js "third todo"))) _).
  by vm_compute.
Defined.

(** ** How the operations compose *)

(** X13.  Deleting at the old length after an [add] gives back the old
    collection, whether the [add] went through (the new item is removed)
    or was refused (the index refers to nothing and nothing is removed). *)
Theorem add_then_delete_last (st : State) (raw : jsstring) :
  todos (Store.delete (Z.of_nat (length (todos st))) (Store.add raw st))
  = todos st.
Proof.
  destruct (add_todos raw st) as [Hsame|(_ & _ & _ & Hnew)].
  - rewrite delete_todos_outside; [done|]. rewrite Hsame. lia.
  - rewrite delete_todos_inside.
    + rewrite Hnew, Nat2Z.id.
      rewrite delete_take_drop, take_app_length.
      rewrite drop_ge; [by rewrite app_nil_r|].
      rewrite length_app. simpl. lia.
    + rewrite Hnew, length_app. simpl. lia.
Qed.

(** X14.  Toggles commute: the order in which two items are toggled does
    not matter, whatever the two indices. *)
Theorem toggle_commute (st : State) (i j : Z) :
  Store.toggle i (Store.toggle j st) = Store.toggle j (Store.toggle i st).
Proof.
  rewrite !toggle_state. simpl. f_equal.
  apply list_eq. intros n. rewrite !Array_map_lookup.
  destruct (todos st !! n) as [t|]; simpl; [|done].
  unfold flipAt.
  by destruct (Z.of_nat n =? i), (Z.of_nat n =? j).
Qed.

(** * The first version of [addTodo] *)

Lemma regex_remove_all_allowed s :
  Forall allowedUnit (regex_remove_all notAlnumSpace s).
Proof.
  unfold regex_remove_all. induction s as [|c r IH]; simpl; [constructor|].
  destruct (notAlnumSpace c) eqn:E; simpl; [done|].
  constructor; [|done].
  unfold allowedUnit. unfold notAlnumSpace in E. by apply negb_false_iff in E.
Qed.

Lemma capitalized_nil t : capitalized t = [] ↔ t = [].
Proof. by destruct t. Qed.

Lemma V1_addTodo_cases (st : V1.State) :
  let kept := regex_remove_all notAlnumSpace (trim (V1.input st)) in
  V1.addTodo st
  = if bool_decide (kept = []) then st
    else {| V1.todos := V1.todos st
                        ++ [ {| text := capitalized kept; completed := false |} ];
            V1.input := [] |}.
Proof.
  simpl. unfold V1.addTodo. fold (capitalized (regex_remove_all notAlnumSpace (trim (V1.input st)))).
  destruct (decide (trim (V1.input st) = [])) as [He|He].
  - rewrite bool_decide_eq_true_2 by done. by rewrite He.
  - rewrite (bool_decide_eq_false_2 (trim _ = [])) by done.
    destruct (decide (regex_remove_all notAlnumSpace (trim (V1.input st)) = []))
      as [Hk|Hk].
    + rewrite !bool_decide_eq_true_2; [done|done|by apply capitalized_nil].
    + rewrite !bool_decide_eq_false_2; [done|done|by rewrite capitalized_nil].
Qed.

(** X15.  The first version of [addTodo] drops instead of refusing.  It
    leaves the state alone exactly when no letter, digit or white space is
    left of the trimmed input; otherwise it appends the formatted rest and
    clears the field.  What it stores is never empty and made of letters,
    digits and white space only. *)
Theorem V1_addTodo_stores (st : V1.State) :
  let kept := regex_remove_all notAlnumSpace (trim (V1.input st)) in
  (kept = [] → V1.addTodo st = st)
  ∧ (kept ≠ [] →
     V1.addTodo st
     = {| V1.todos := V1.todos st
                      ++ [ {| text := capitalized kept; completed := false |} ];
          V1.input := [] |})
  ∧ (Forall wellFormedText (V1.todos st) →
     Forall wellFormedText (V1.todos (V1.addTodo st))).
Proof.
  simpl. rewrite V1_addTodo_cases. simpl.
  destruct (decide (regex_remove_all notAlnumSpace (trim (V1.input st)) = []))
    as [Hk|Hk].
  - rewrite bool_decide_eq_true_2 by done. done.
  - rewrite bool_decide_eq_false_2 by done. repeat split; try done.
    intros Hwf. simpl. apply Forall_app. split; [done|].
    constructor; [|done]. split; simpl.
    + by apply capitalized_nonempty.
    + apply capitalized_allowed, regex_remove_all_allowed.
Qed.

Lemma V1_addTodo_stores_witness :
  V1.addTodo {| V1.todos := []; V1.input := js " fix bug #12! " |}
  = {| V1.todos := [ {| text := js "Fix bug 12"; completed := false |} ];
       V1.input := [] |}.
Proof.
  refine (proj1 (proj2 (V1_addTodo_stores
            {| V1.todos := []; V1.input := js " fix bug #12! " |})) _).
  by vm_compute.
Defined.



(** X17.  Deleting an item frees its text.  In a reachable state, after
    [delete] of the item at a valid index, an [add] of that item's text
    goes through: the text comes back as a new, active item at the end of
    what [delete] left. *)
Theorem delete_frees_text (st : State) (index : Z) (it : Todo) :
  reachable st →
  0 ≤ index → todos st !! Z.to_nat index = Some it →
  validationMessage (Store.add (text it) (Store.delete index st)) = msgNone
  ∧ todos (Store.add (text it) (Store.delete index st))
    = todos (Store.delete index st)
      ++ [ {| text := text it; completed := false |} ].
Proof.
  intros (Hwf & Hsf & Hdist)%reachable_invariants H0 Hit.
  pose proof (lookup_lt_Some _ _ _ Hit) as Hlt.
  destruct (Forall_lookup_1 _ _ _ _ Hwf Hit) as [Hne Hall].
  destruct (Forall_lookup_1 _ _ _ _ Hsf Hit) as [Htrim Hcap].
  assert (normalizes (text it)) as Hn.
  { split; rewrite Htrim; [done|]. by apply regex_test_false. }
  rewrite add_when_fresh; [|done|].
  - simpl. by rewrite Htrim, Hcap.
  - apply isDuplicate_false. intros m t Hm _.
    rewrite Htrim, Hcap.
    rewrite delete_todos_inside in Hm by lia.
    rewrite list_lookup_delete in Hm.
    case_decide; eapply Hdist; [exact Hm|exact Hit|lia|exact Hm|exact Hit|lia].
Qed.

Lemma delete_frees_text_witness :
  todos (Store.add (js "Task") (Store.delete 0 oneItem))
  = todos (Store.delete 0 oneItem)
    ++ [ {| text := js "Task"; completed := false |} ].
Proof.
  refine (proj2 (delete_frees_text oneItem 0
                   {| text := js "Task"; completed := false |} _ _ _)).
  - apply (reachable_step _ (OpAdd _)), reachable_initial.
  - lia.
  - by vm_compute.
Defined.
